(** * waterlight-node: the request dispatcher and the SSE event decoder

    A shallow embedding of [src/client.ts] (the constructor, the retrying
    [_request] loop, [handleError] and [Completions.create]), of [errors.ts]
    (the error classes) and of [streaming.ts] (the [Stream] async iterator),
    followed by the properties the specification states about them and by
    further properties of the code.

    The network is an oracle: the k-th call of [fetch] settles the way the
    oracle says, whatever request is sent, so URLs, request headers and request
    bodies are not part of the model.  Timers are not modelled either: a
    timeout shows up as [fetch] rejecting with an [AbortError]. *)

From Stdlib Require Import ZArith NArith List Bool Lia Ascii String.
From Stdlib Require Import Floats.
Import ListNotations.

Set Warnings "-register-all".

(* ===================================================================== *)
(** ** JavaScript values used by the code *)
(* ===================================================================== *)

Module JS.

(** A JavaScript string is a sequence of UTF-16 code units. *)
Definition code_unit := N.
Definition jsstring := list code_unit.

(** The string a literal of the source denotes (literals here are ASCII). *)
Definition str (s : string) : jsstring :=
  List.map N_of_ascii (list_ascii_of_string s).

Definition LF : code_unit := 10%N.

(** [s === t] on strings. *)
Fixpoint str_eqb (s t : jsstring) : bool :=
  match s, t with
  | [], [] => true
  | c :: s', d :: t' => N.eqb c d && str_eqb s' t'
  | _, _ => false
  end.

(** A JavaScript number is an IEEE 754 binary64 value. *)
Definition number := float.

(** [String.prototype.startsWith(p)], from position 0. *)
Fixpoint startsWith (s p : jsstring) {struct p} : bool :=
  match p, s with
  | [], _ => true
  | c :: p', d :: s' => N.eqb c d && startsWith s' p'
  | _ :: _, [] => false
  end.

Fixpoint indexOf_from (s p : jsstring) (i : Z) : Z :=
  if startsWith s p then i
  else match s with
       | [] => (-1)%Z
       | _ :: s' => indexOf_from s' p (i + 1)
       end.

(** [String.prototype.indexOf(p)]: the first position where [p] occurs,
    [-1] when there is none. *)
Definition indexOf (s p : jsstring) : Z := indexOf_from s p 0.

(** How [slice] reads one of its indices: a negative index counts from the
    end, and the result is clamped to the string. *)
Definition slice_index (len k : Z) : Z :=
  if (k <? 0)%Z then Z.max (len + k) 0 else Z.min k len.

(** [String.prototype.slice(start, end)]. *)
Definition slice (s : jsstring) (start stop : Z) : jsstring :=
  let len := Z.of_nat (List.length s) in
  let from := slice_index len start in
  let to := slice_index len stop in
  firstn (Z.to_nat (to - from)) (skipn (Z.to_nat from) s).

(** [String.prototype.slice(start)]. *)
Definition slice_from (s : jsstring) (start : Z) : jsstring :=
  slice s start (Z.of_nat (List.length s)).

(** [String.prototype.split(sep)] for a separator of one code unit. *)
Fixpoint split (s : jsstring) (sep : code_unit) : list jsstring :=
  match s with
  | [] => [[]]
  | c :: s' =>
      if N.eqb c sep then [] :: split s' sep
      else match split s' sep with
           | l :: ls => (c :: l) :: ls
           | [] => [[c]]
           end
  end.

(** ECMAScript's WhiteSpace and LineTerminator code points, which
    [String.prototype.trim] strips. *)
Definition is_space (c : code_unit) : bool :=
  existsb (N.eqb c)
    [9; 10; 11; 12; 13; 32; 160; 5760; 8192; 8193; 8194; 8195; 8196; 8197;
     8198; 8199; 8200; 8201; 8202; 8232; 8233; 8239; 8287; 12288; 65279]%N.

Fixpoint trimStart (s : jsstring) : jsstring :=
  match s with
  | c :: s' => if is_space c then trimStart s' else s
  | [] => []
  end.

Definition trimEnd (s : jsstring) : jsstring := rev (trimStart (rev s)).

(** [String.prototype.trim()]. *)
Definition trim (s : jsstring) : jsstring := trimEnd (trimStart s).

(** The decimal digits of a non-negative integer, most significant first:
    what a template literal prints for an HTTP status. *)
Fixpoint digits_fuel (fuel : nat) (n : N) (acc : jsstring) : jsstring :=
  match fuel with
  | O => acc
  | S fuel' =>
      let acc' := (48 + N.modulo n 10)%N :: acc in
      if (n <? 10)%N then acc' else digits_fuel fuel' (N.div n 10) acc'
  end.

Definition integer_toString (z : Z) : jsstring :=
  let n := Z.abs_N z in
  let ds := digits_fuel (S (N.to_nat (N.log2 n))) n [] in
  if (z <? 0)%Z then 45%N :: ds else ds.

(** The values [JSON.parse] produces.  An object keeps its own properties in
    order, one entry per key. *)
Inductive json :=
| JNull
| JBool (b : bool)
| JNum (n : number)
| JStr (s : jsstring)
| JArr (items : list json)
| JObj (props : list (jsstring * json)).

Fixpoint lookup (k : jsstring) (props : list (jsstring * json)) : option json :=
  match props with
  | [] => None
  | (k', v) :: rest => if str_eqb k k' then Some v else lookup k rest
  end.

(** [props] with the property [k] set to [v]: a key that is there keeps its
    place. *)
Fixpoint set_prop (k : jsstring) (v : json) (props : list (jsstring * json))
    : list (jsstring * json) :=
  match props with
  | [] => [(k, v)]
  | (k', v') :: rest =>
      if str_eqb k k' then (k', v) :: rest else (k', v') :: set_prop k v rest
  end.

(** Property access [v.k] on a value that came out of [JSON.parse], for a
    key no prototype defines ([error], [message]): [None] is [undefined]. *)
Definition get (v : json) (k : jsstring) : option json :=
  match v with
  | JObj props => lookup k props
  | _ => None
  end.

(** [typeof v === 'object']; [None] is [undefined]. *)
Definition typeof_object (v : option json) : bool :=
  match v with
  | Some JNull | Some (JArr _) | Some (JObj _) => true
  | _ => false
  end.

(** A thrown value that is not one of the library's errors, seen through
    what the code reads of it: [e?.name], [e?.message] ([None] when nullish)
    and the text a template literal gives for [e] itself. *)
Record Exception := {
  exn_name : option jsstring;
  exn_message : option jsstring;
  exn_text : jsstring
}.

Definition SyntaxError (message : jsstring) : Exception :=
  {| exn_name := Some (str "SyntaxError");
     exn_message := Some message;
     exn_text := str "SyntaxError: " ++ message |}.

Definition TypeError (message : jsstring) : Exception :=
  {| exn_name := Some (str "TypeError");
     exn_message := Some message;
     exn_text := str "TypeError: " ++ message |}.

(** The built-ins of the host that the code calls: [parseFloat],
    [JSON.parse] (with the message of the [SyntaxError] on failure) and the
    conversion [ToString] that the [Error] constructor applies to its message
    (it throws for an object that has no usable [toString]).  The properties
    below hold for any host that converts a string to itself and rejects
    [[DONE]] as JSON; [Node.host] further down is one, defined after
    ECMAScript. *)
Class Host := {
  parseFloat : jsstring -> number;
  JSON_parse : jsstring -> json + jsstring;
  ToString : json -> jsstring + Exception;
  ToString_string : forall s, ToString (JStr s) = inl s;
  JSON_parse_sentinel : exists m, JSON_parse (str "[DONE]") = inr m
}.

End JS.

Import JS.

(* ===================================================================== *)
(** ** errors.ts *)
(* ===================================================================== *)

Module Errors.

(** The class of an error object: what [instanceof] and [name] tell. *)
Inductive error_class :=
| WaterlightError_class
| AuthenticationError_class
| RateLimitError_class
| InsufficientCreditsError_class
| APIError_class.

(** An instance of [WaterlightError] or of one of its subclasses.
    [retryAfter] is a field of [RateLimitError] only; [None] is [undefined]. *)
Record WaterlightError := {
  class : error_class;
  message : jsstring;
  status : option Z;
  requestId : option jsstring;
  retryAfter : option number
}.

Definition new_WaterlightError (message : jsstring) (status : option Z)
    (requestId : option jsstring) : WaterlightError :=
  {| class := WaterlightError_class; message := message; status := status;
     requestId := requestId; retryAfter := None |}.

Definition AuthenticationError (message : jsstring)
    (requestId : option jsstring) : WaterlightError :=
  {| class := AuthenticationError_class; message := message;
     status := Some 401%Z; requestId := requestId; retryAfter := None |}.

Definition RateLimitError (message : jsstring) (retryAfter : option number)
    (requestId : option jsstring) : WaterlightError :=
  {| class := RateLimitError_class; message := message;
     status := Some 429%Z; requestId := requestId; retryAfter := retryAfter |}.

Definition InsufficientCreditsError (message : jsstring)
    (requestId : option jsstring) : WaterlightError :=
  {| class := InsufficientCreditsError_class; message := message;
     status := Some 402%Z; requestId := requestId; retryAfter := None |}.

Definition APIError (message : jsstring) (status : option Z)
    (requestId : option jsstring) : WaterlightError :=
  {| class := APIError_class; message := message; status := status;
     requestId := requestId; retryAfter := None |}.

(** [this.name], set by each constructor. *)
Definition name (e : WaterlightError) : jsstring :=
  match class e with
  | WaterlightError_class => str "WaterlightError"
  | AuthenticationError_class => str "AuthenticationError"
  | RateLimitError_class => str "RateLimitError"
  | InsufficientCreditsError_class => str "InsufficientCreditsError"
  | APIError_class => str "APIError"
  end.

(** What a [throw] carries: an error of the library ([e instanceof
    WaterlightError]) or anything else. *)
Inductive thrown :=
| Lib (e : WaterlightError)
| Other (e : Exception).

(** How a call ends. *)
Inductive completion (A : Type) :=
| Returned (a : A)
| Threw (e : thrown).
Arguments Returned {A} a.
Arguments Threw {A} e.

End Errors.

Import Errors.

(* ===================================================================== *)
(** ** The fetch API, as the code uses it *)
(* ===================================================================== *)

Module Fetch.

(** One [reader.read()] of a response body that has not ended: the text the
    [TextDecoder] gives for the chunk, or the rejection of the read. *)
Inductive read_result :=
| ReadValue (text : jsstring)
| ReadFail (e : Exception).

(** [res.headers]: lower-case names, one entry per name. *)
Definition Headers := list (jsstring * jsstring).

Fixpoint headers_get (h : Headers) (name : jsstring) : option jsstring :=
  match h with
  | [] => None
  | (n, v) :: rest => if str_eqb name n then Some v else headers_get rest name
  end.

(** A response: the body is the reads it delivers before it reports
    [done]; [None] is a null body. *)
Record Response := {
  res_status : Z;
  res_headers : Headers;
  res_body : option (list read_result)
}.

(** [res.ok]. *)
Definition ok (res : Response) : bool :=
  (200 <=? res_status res)%Z && (res_status res <=? 299)%Z.

Fixpoint read_all (reads : list read_result) : jsstring + Exception :=
  match reads with
  | [] => inl []
  | ReadValue text :: rest =>
      match read_all rest with
      | inl t => inl (text ++ t)
      | inr e => inr e
      end
  | ReadFail e :: _ => inr e
  end.

(** [res.text()]. *)
Definition res_text (res : Response) : jsstring + Exception :=
  match res_body res with
  | None => inl []
  | Some reads => read_all reads
  end.

(** [res.json()]. *)
Definition res_json `{Host} (res : Response) : json + Exception :=
  match res_text res with
  | inl t =>
      match JSON_parse t with
      | inl v => inl v
      | inr m => inr (SyntaxError m)
      end
  | inr e => inr e
  end.

(** How one call of [fetch] settles. *)
Inductive fetch_outcome :=
| Resolve (res : Response)
| Reject (e : thrown).

(** The network: how the k-th call of [fetch] of a run settles. *)
Definition network := nat -> fetch_outcome.

End Fetch.

Import Fetch.

(* ===================================================================== *)
(** ** client.ts *)
(* ===================================================================== *)

Module Client.

Definition DEFAULT_TIMEOUT : Z := 120000.
Definition DEFAULT_MAX_RETRIES : Z := 2.
Definition RETRYABLE_STATUS : list Z := [429; 500; 502; 503; 504]%Z.

(** [RETRYABLE_STATUS.has(status)]. *)
Definition RETRYABLE_STATUS_has (status : Z) : bool :=
  existsb (Z.eqb status) RETRYABLE_STATUS.

(** The fields of a [Waterlight] client that [_request] and [Stream] read. *)
Record Waterlight := {
  apiKey : jsstring;
  baseUrl : jsstring;
  timeout : Z;
  maxRetries : Z
}.

(** The truthiness of a header value: [null] and the empty string are
    falsy. *)
Definition truthy (v : option jsstring) : bool :=
  match v with
  | Some (_ :: _) => true
  | _ => false
  end.

(** [(typeof errObj === 'object' ? errObj?.message : errObj)
      ?? 'Request failed'], where [errObj] is [body?.error]. *)
Definition error_message (body : json) : json :=
  let errObj := get body (str "error") in
  let picked :=
    if typeof_object errObj
    then match errObj with Some o => get o (str "message") | None => None end
    else errObj in
  match picked with
  | None | Some JNull => JStr (str "Request failed")
  | Some v => v
  end.

(** [handleError(status, body, headers)]: it always throws.  Each error
    constructor converts its message with [ToString] (in [Error]), and that
    conversion itself may throw. *)
Definition handleError `{Host} (status : Z) (body : json) (headers : Headers)
    : thrown :=
  let msg := error_message body in
  let requestId := headers_get headers (str "x-request-id") in
  match ToString msg with
  | inr e => Other e
  | inl msg =>
      if (status =? 401)%Z then Lib (AuthenticationError msg requestId)
      else if (status =? 429)%Z then
        let ra := headers_get headers (str "retry-after") in
        let retryAfter :=
          if truthy ra
          then match ra with Some v => Some (parseFloat v) | None => None end
          else None in
        Lib (RateLimitError msg retryAfter requestId)
      else if (status =? 402)%Z then Lib (InsufficientCreditsError msg requestId)
      else Lib (APIError msg (Some status) requestId)
  end.

(** [2 ** attempt]. *)
Definition pow2 (attempt : nat) : number := Z.ldexp 1 (Z.of_nat attempt).

(** [retryAfter ? parseFloat(retryAfter) * 1000 : 500 * 2 ** attempt]. *)
Definition retry_delay `{Host} (res : Response) (attempt : nat) : number :=
  let retryAfter := headers_get (res_headers res) (str "retry-after") in
  if truthy retryAfter
  then match retryAfter with
       | Some v => PrimFloat.mul (parseFloat v) 1000
       | None => PrimFloat.mul 500 (pow2 attempt)
       end
  else PrimFloat.mul 500 (pow2 attempt).

(** How the body of the [while (true)] loop ends: with the [continue] that
    follows [await sleep(delay)], or by leaving [_request]. *)
Inductive round :=
| Continue (delay : number)
| Exit (c : completion json).

(** The [try] block of one iteration. *)
Definition try_block `{Host} (client : Waterlight) (attempt : nat)
    (o : fetch_outcome) : round :=
  match o with
  | Reject e => Exit (Threw e)
  | Resolve res =>
      if negb (ok res) then
        if RETRYABLE_STATUS_has (res_status res)
           && (Z.of_nat attempt <? maxRetries client)%Z
        then Continue (retry_delay res attempt)
        else
          let data :=
            match res_json res with
            | inl v => v
            | inr _ => JObj []
            end in
          Exit (Threw (handleError (res_status res) data (res_headers res)))
      else
        match res_json res with
        | inl v => Exit (Returned v)
        | inr e => Exit (Threw (Other e))
        end
  end.

(** The [catch (e)] clause. *)
Definition catch_clause (e : thrown) : thrown :=
  match e with
  | Lib _ => e
  | Other x =>
      if match exn_name x with
         | Some n => str_eqb n (str "AbortError")
         | None => false
         end
      then Lib (APIError (str "Request timed out") (Some 408%Z) None)
      else
        let described :=
          match exn_message x with
          | Some m => m
          | None => exn_text x
          end in
        Lib (APIError (str "Network error: " ++ described) (Some 0%Z) None)
  end.

(** One iteration of the loop of [_request]. *)
Definition iterate `{Host} (client : Waterlight) (attempt : nat)
    (o : fetch_outcome) : round :=
  match try_block client attempt o with
  | Exit (Threw e) => Exit (Threw (catch_clause e))
  | i => i
  end.

(** What one call of [_request] does: how it ends, how many times it called
    [fetch], and the delays it slept, in order. *)
Record dispatch := {
  result : completion json;
  attempts : nat;
  sleeps : list number
}.

(** The loop of [_request], from the given value of [attempt]; [None] when
    [fuel] iterations do not reach the end of the call. *)
Fixpoint request_loop `{Host} (fuel : nat) (client : Waterlight)
    (net : network) (attempt : nat) : option dispatch :=
  match fuel with
  | O => None
  | S fuel' =>
      match iterate client attempt (net attempt) with
      | Exit c => Some {| result := c; attempts := 1; sleeps := [] |}
      | Continue delay =>
          match request_loop fuel' client net (S attempt) with
          | Some d =>
              Some {| result := result d;
                      attempts := S (attempts d);
                      sleeps := delay :: sleeps d |}
          | None => None
          end
      end
  end.

(** [_request(method, path, body)]. *)
Definition _request `{Host} (fuel : nat) (client : Waterlight)
    (net : network) : option dispatch :=
  request_loop fuel client net 0.

End Client.

Import Client.

(* ===================================================================== *)
(** ** streaming.ts *)
(* ===================================================================== *)

Module Streaming.

Definition MAX_SSE_BUFFER : Z := 10 * 1024 * 1024.

(** The literals of the decode loop. *)
Definition delimiter : jsstring := [LF; LF].
Definition data_prefix : jsstring := str "data:".
Definition sentinel : jsstring := str "[DONE]".

(** The fields a [Stream] keeps; [stream_body] is the object that
    [JSON.stringify] turns into [this.body]. *)
Record Stream := {
  stream_url : jsstring;
  stream_apiKey : jsstring;
  stream_body : json;
  stream_timeout : Z
}.

(** [new Stream(url, apiKey, params, timeout)], for the object [params] with
    the given properties: the body is [{ ...params, stream: true }]. *)
Definition new_Stream (url apiKey : jsstring)
    (params : list (jsstring * json)) (timeout : Z) : Stream :=
  {| stream_url := url;
     stream_apiKey := apiKey;
     stream_body := JObj (set_prop (str "stream") (JBool true) params);
     stream_timeout := timeout |}.

(** [line.slice(5).trim()]. *)
Definition payload (line : jsstring) : jsstring := trim (slice_from line 5).

(** The [for (const line of rawEvent.split('\n'))] loop: the values it
    yields, and whether it left the generator through [return]. *)
Fixpoint for_lines `{Host} (lines : list jsstring) : list json * bool :=
  match lines with
  | [] => ([], false)
  | line :: rest =>
      if negb (startsWith line data_prefix) then for_lines rest
      else
        let data := payload line in
        if str_eqb data sentinel then ([], true)
        else
          match JSON_parse data with
          | inl v => let (vs, returned) := for_lines rest in (v :: vs, returned)
          | inr _ => for_lines rest
          end
  end.

(** The [while ((boundary = buffer.indexOf('\n\n')) !== -1)] loop: the values
    it yields, and the buffer it leaves ([None] when the generator returned).
    Every iteration shortens the buffer, so with [fuel] the length of the
    buffer, as [drain] has it, the branch for [O] is not reached when a
    boundary is left: see [drain_unfold]. *)
Fixpoint drain_fuel `{Host} (fuel : nat) (buffer : jsstring)
    : list json * option jsstring :=
  let boundary := indexOf buffer delimiter in
  if (boundary =? -1)%Z then ([], Some buffer)
  else
    match fuel with
    | O => ([], Some buffer)
    | S fuel' =>
        let rawEvent := slice buffer 0 boundary in
        let buffer' := slice_from buffer (boundary + 2) in
        match for_lines (split rawEvent LF) with
        | (vs, true) => (vs, None)
        | (vs, false) =>
            let (vs', kept) := drain_fuel fuel' buffer' in (vs ++ vs', kept)
        end
    end.

Definition drain `{Host} (buffer : jsstring) : list json * option jsstring :=
  drain_fuel (List.length buffer) buffer.

(** What iterating a [Stream] to its end does: the values yielded in order,
    the number of calls of [fetch] and of [reader.read()], and how the
    iteration ends. *)
Record iteration := {
  yielded : list json;
  fetches : nat;
  reads : nat;
  completed : completion unit
}.

Definition overflow_message : jsstring :=
  str "SSE buffer overflow: server sent too much data without delimiters".

(** How one iteration of the outer [while (true)] loop ends: it goes round
    again with a new buffer, or it leaves the generator; either way with
    the values it yielded. *)
Inductive read_step_result :=
| Next (vs : list json) (buffer : jsstring)
| Stop (vs : list json) (c : completion unit).

(** One iteration of the outer loop in which [reader.read()] did not report
    [done]. *)
Definition read_step `{Host} (buffer : jsstring) (read : read_result)
    : read_step_result :=
  match read with
  | ReadFail e => Stop [] (Threw (Other e))
  | ReadValue text =>
      let buffer := buffer ++ text in
      if (MAX_SSE_BUFFER <? Z.of_nat (List.length buffer))%Z
      then Stop [] (Threw (Lib (APIError overflow_message (Some 0%Z) None)))
      else
        match drain buffer with
        | (vs, None) => Stop vs (Returned tt)
        | (vs, Some buffer') => Next vs buffer'
        end
  end.

(** The outer loop, from the given buffer: the values yielded, the number
    of calls of [reader.read()] and the way it ends.  After the last element
    of [body] the stream reports [done], and the loop breaks. *)
Fixpoint read_loop `{Host} (buffer : jsstring) (body : list read_result)
    : list json * nat * completion unit :=
  match body with
  | [] => ([], 1%nat, Returned tt)
  | read :: rest =>
      match read_step buffer read with
      | Stop vs c => (vs, 1%nat, c)
      | Next vs buffer' =>
          let '(vs', n, c) := read_loop buffer' rest in
          (vs ++ vs', S n, c)
      end
  end.

(** [e?.name] and [e?.message ?? e] of a caught value. *)
Definition thrown_name (e : thrown) : option jsstring :=
  match e with
  | Lib x => Some (name x)
  | Other x => exn_name x
  end.

Definition thrown_description (e : thrown) : jsstring :=
  match e with
  | Lib x => message x
  | Other x =>
      match exn_message x with
      | Some m => m
      | None => exn_text x
      end
  end.

Definition null_body_message : jsstring :=
  str "Cannot read properties of null (reading 'getReader')".

(** [Stream.prototype[Symbol.asyncIterator]], iterated to its end. *)
Definition asyncIterator `{Host} (s : Stream) (net : network) : iteration :=
  match net 0%nat with
  | Reject e =>
      let err :=
        if match thrown_name e with
           | Some n => str_eqb n (str "AbortError")
           | None => false
           end
        then APIError (str "Stream request timed out") (Some 408%Z) None
        else APIError (str "Network error: " ++ thrown_description e)
                      (Some 0%Z) None in
      {| yielded := []; fetches := 1; reads := 0; completed := Threw (Lib err) |}
  | Resolve res =>
      if negb (ok res) then
        let errMsg := match res_text res with inl t => t | inr _ => [] end in
        let err :=
          new_WaterlightError
            (str "Streaming error: " ++ integer_toString (res_status res)
               ++ str " " ++ errMsg)
            (Some (res_status res)) None in
        {| yielded := []; fetches := 1; reads := 0; completed := Threw (Lib err) |}
      else
        match res_body res with
        | None =>
            {| yielded := []; fetches := 1; reads := 0;
               completed := Threw (Other (TypeError null_body_message)) |}
        | Some body =>
            let '(vs, n, c) := read_loop [] body in
            {| yielded := vs; fetches := 1; reads := n; completed := c |}
        end
  end.

End Streaming.

Import Streaming.

(** [Completions.create(params)] with [params.stream] set: the stream is
    built from the client's URL, key and timeout. *)
Definition Completions_create_stream (client : Waterlight)
    (params : list (jsstring * json)) : Stream :=
  new_Stream (baseUrl client ++ str "/v1/chat/completions")
             (apiKey client) params (timeout client).

(* ===================================================================== *)
(** ** client.ts: the constructor and [Completions.create] *)
(* ===================================================================== *)

Module Construction.

Definition DEFAULT_BASE_URL : jsstring := str "https://api.waterlight.io".

(** The argument [opts] of the constructor; [None] is a property that is
    missing, [undefined] or [null]. *)
Record Options := {
  opts_apiKey : option jsstring;
  opts_baseUrl : option jsstring;
  opts_timeout : option Z;
  opts_maxRetries : option Z
}.

(** The two variables of [process.env] that the constructor reads; [None]
    is a variable that is not set. *)
Record Env := {
  WATERLIGHT_API_KEY : option jsstring;
  WATERLIGHT_BASE_URL : option jsstring
}.

(** [a ?? b]. *)
Definition coalesce {A : Type} (a b : option A) : option A :=
  match a with
  | Some _ => a
  | None => b
  end.

Definition slash : code_unit := 47%N.

(** [s.replace(/\/+$/, '')]: the first place, from the left, where the
    pattern matches is the first one from which only slashes follow, at
    least one, up to the end of the string; the match is taken out. *)
Fixpoint replace_trailing_slashes (s : jsstring) : jsstring :=
  match s with
  | [] => []
  | c :: s' =>
      if forallb (N.eqb slash) s then [] else c :: replace_trailing_slashes s'
  end.

(** [opts.apiKey ?? process.env.WATERLIGHT_API_KEY]. *)
Definition resolved_key (env : Env) (opts : Options) : option jsstring :=
  coalesce (opts_apiKey opts) (WATERLIGHT_API_KEY env).

(** [opts.baseUrl ?? process.env.WATERLIGHT_BASE_URL ?? DEFAULT_BASE_URL]. *)
Definition configured_url (env : Env) (opts : Options) : jsstring :=
  match coalesce (opts_baseUrl opts) (WATERLIGHT_BASE_URL env) with
  | Some u => u
  | None => DEFAULT_BASE_URL
  end.

(** The URLs the constructor lets through. *)
Definition secure_or_local (url : jsstring) : bool :=
  negb (negb (startsWith url (str "https://"))
        && negb (startsWith url (str "http://localhost"))
        && negb (startsWith url (str "http://127.0.0.1"))).

Definition key_required_message : jsstring :=
  str "API key required. Pass apiKey or set WATERLIGHT_API_KEY env var. "
    ++ str "Get your key at https://waterlight.io".

Definition insecure_url_message (resolvedUrl : jsstring) : jsstring :=
  str "baseUrl must use HTTPS (got: " ++ slice resolvedUrl 0 40
    ++ str "...). HTTP is only allowed for localhost development.".

(** [new Waterlight(opts)]: the client, or the [WaterlightError] the
    constructor throws. *)
Definition new_Waterlight (env : Env) (opts : Options)
    : completion Waterlight :=
  match resolved_key env opts with
  | None | Some [] =>
      Threw (Lib (new_WaterlightError key_required_message None None))
  | Some key =>
      let resolvedUrl := replace_trailing_slashes (configured_url env opts) in
      if negb (secure_or_local resolvedUrl)
      then Threw (Lib (new_WaterlightError (insecure_url_message resolvedUrl)
                                           None None))
      else
        Returned
          {| apiKey := key;
             baseUrl := resolvedUrl;
             timeout :=
               match opts_timeout opts with
               | Some t => t
               | None => DEFAULT_TIMEOUT
               end;
             maxRetries :=
               match opts_maxRetries opts with
               | Some n => n
               | None => DEFAULT_MAX_RETRIES
               end |}
  end.

End Construction.

Import Construction.

(** The truthiness of the value of a property; [None] is [undefined]. *)
Definition truthy_value (v : option json) : bool :=
  match v with
  | None | Some JNull => false
  | Some (JBool b) => b
  | Some (JNum n) => negb (PrimFloat.eqb n 0 || PrimFloat.is_nan n)
  | Some (JStr s) => negb (str_eqb s [])
  | Some (JArr _) | Some (JObj _) => true
  end.

(** What [Completions.create] returns: a [Stream], or the promise of
    [_post(path, body)]. *)
Inductive creation :=
| Streamed (s : Stream)
| Posted (path : jsstring) (body : json).

(** [Completions.create(params)], for the object [params] with the given
    properties. *)
Definition Completions_create (client : Waterlight)
    (params : list (jsstring * json)) : creation :=
  if truthy_value (lookup (str "stream") params)
  then Streamed (Completions_create_stream client params)
  else Posted (str "/v1/chat/completions")
              (JObj (set_prop (str "stream") (JBool false) params)).

(** The object whose JSON text the request of a [creation] carries. *)
Definition request_body (c : creation) : json :=
  match c with
  | Streamed s => stream_body s
  | Posted _ body => body
  end.

(* ===================================================================== *)
(** ** A reference host *)
(* ===================================================================== *)

(** The built-ins of [Host] as ECMAScript defines them, so that the model
    runs on concrete inputs. *)
Module Node.

(** *** Decimal literals to binary64 *)

(** The binary64 value nearest to [num / den], for positive [num] and
    [den]: the quotient is computed to more than 64 bits, a last bit records
    whether anything is left, and [binary_normalize] rounds to nearest
    even. *)
Definition nearest_ratio (num den : Z) : number :=
  let s := Z.max 0 (65 + Z.log2 den - Z.log2 num) in
  let scaled := Z.shiftl num s in
  let q := Z.div scaled den in
  let sticky := if (Z.modulo scaled den =? 0)%Z then 0%Z else 1%Z in
  SF2Prim (SpecFloat.binary_normalize prec emax (2 * q + sticky) (- s - 1) false).

(** The number of decimal digits of a positive integer. *)
Definition decimal_length (m : Z) : Z :=
  Z.of_nat (List.length (integer_toString m)).

(** The binary64 value nearest to [m * 10 ^ e], for [m >= 0]. *)
Definition nearest_decimal (m e : Z) : number :=
  if (m =? 0)%Z then 0%float
  else if (400 <? e + decimal_length m)%Z then infinity
  else if (e + decimal_length m <? -400)%Z then 0%float
  else if (0 <=? e)%Z then nearest_ratio (m * 10 ^ e) 1
  else nearest_ratio m (10 ^ (- e)).

Definition signed (neg : bool) (x : number) : number :=
  if neg then PrimFloat.opp x else x.

(** *** parseFloat *)

Definition is_digit (c : code_unit) : bool := (48 <=? c)%N && (c <=? 57)%N.

(** The longest run of decimal digits at the head of a string, and the
    rest. *)
Fixpoint take_digits (s : jsstring) : jsstring * jsstring :=
  match s with
  | c :: s' =>
      if is_digit c
      then let (ds, rest) := take_digits s' in (c :: ds, rest)
      else ([], s)
  | [] => ([], [])
  end.

Definition digits_value (ds : jsstring) : Z :=
  fold_left (fun acc d => (10 * acc + (Z.of_N d - 48))%Z) ds 0%Z.

(** A sign at the head of a string ([-] is 45, [+] is 43). *)
Definition take_sign (s : jsstring) : bool * jsstring :=
  match s with
  | 45%N :: r => (true, r)
  | 43%N :: r => (false, r)
  | _ => (false, s)
  end.

(** An ExponentPart at the head of a string, when there is a whole one:
    its value and the rest. *)
Definition take_exponent (s : jsstring) : Z * jsstring :=
  match s with
  | c :: r =>
      if (c =? 101)%N || (c =? 69)%N then
        let (neg, r') := take_sign r in
        match take_digits r' with
        | ([], _) => (0%Z, s)
        | (ds, rest) =>
            ((if neg then - digits_value ds else digits_value ds)%Z, rest)
        end
      else (0%Z, s)
  | [] => (0%Z, s)
  end.

(** [parseFloat(s)]: the value of the longest prefix of the trimmed string
    that is a StrDecimalLiteral, [NaN] when there is none. *)
Definition parseFloat (s : jsstring) : number :=
  let (neg, s0) := take_sign (trimStart s) in
  if startsWith s0 (str "Infinity") then signed neg infinity
  else
    let (ip, s1) := take_digits s0 in
    let (fp, s2) :=
      match s1 with
      | 46%N :: r => take_digits r
      | _ => ([], s1)
      end in
    match ip ++ fp with
    | [] => nan
    | ds =>
        let (e, _) := take_exponent s2 in
        signed neg
          (nearest_decimal (digits_value ds) (e - Z.of_nat (List.length fp)))
    end.

(** *** Number::toString *)

(** [num / den < 10 ^ k], for positive [num] and [den]. *)
Definition below_pow10 (num den k : Z) : bool :=
  if (0 <=? k)%Z then (num <? den * 10 ^ k)%Z else (num * 10 ^ (- k) <? den)%Z.

(** The least [k], from [k0] on, with [num / den < 10 ^ k]. *)
Fixpoint decimal_exponent (fuel : nat) (num den k0 : Z) : Z :=
  match fuel with
  | O => k0
  | S fuel' =>
      if below_pow10 num den k0 then k0
      else decimal_exponent fuel' num den (k0 + 1)
  end.

(** [s * 10 ^ (k - n)] read back as a binary64 value. *)
Definition read_back (s k n : Z) : number := nearest_decimal s (k - n).

(** The decimal of [n] digits nearest to [num / den] among those that
    read back as [x], when there is one: its digits [s] and its exponent,
    with value [s * 10 ^ (k - n)].  The candidates are the two integers
    around [num / den / 10 ^ (k - n)]; the upper one may be [10 ^ n], which
    is the digit 1 one place higher. *)
Definition digits_of_length (x : number) (num den k n : Z)
    : option (Z * Z) :=
  let e := (k - n)%Z in
  let a := if (0 <=? e)%Z then num else (num * 10 ^ (- e))%Z in
  let b := if (0 <=? e)%Z then (den * 10 ^ e)%Z else den in
  let lo := Z.div a b in
  let hi := (lo + 1)%Z in
  let fits s :=
    (10 ^ (n - 1) <=? s)%Z && (s <=? 10 ^ n)%Z
    && PrimFloat.Leibniz.eqb (read_back s k n) x in
  let pick s :=
    if (s =? 10 ^ n)%Z then (10 ^ (n - 1), k + 1)%Z else (s, k) in
  (* the distance from [lo] against the distance to [hi] *)
  let lo_closer := (2 * a - 2 * lo * b <? b)%Z in
  let tie := (2 * a - 2 * lo * b =? b)%Z in
  match fits lo, fits hi with
  | true, true =>
      if lo_closer then Some (pick lo)
      else if tie then Some (pick (if Z.even lo then lo else hi))
      else Some (pick hi)
  | true, false => Some (pick lo)
  | false, true => Some (pick hi)
  | false, false => None
  end.

(** The shortest decimal that reads back as [x]: its digits, its exponent
    and the number of its digits. *)
Fixpoint shortest_digits (fuel : nat) (x : number) (num den k n : Z)
    : Z * Z * Z :=
  match fuel with
  | O => (0, k, n)%Z
  | S fuel' =>
      match digits_of_length x num den k n with
      | Some (s, k') => (s, k', n)
      | None => shortest_digits fuel' x num den k (n + 1)
      end
  end.

Definition zeros (n : Z) : jsstring := repeat 48%N (Z.to_nat n).

(** Number::toString of a positive finite value with decimal exponent
    [k] and the [n] digits [ds]. *)
Definition format_decimal (ds : jsstring) (k n : Z) : jsstring :=
  if (n <=? k)%Z && (k <=? 21)%Z then ds ++ zeros (k - n)
  else if (0 <? k)%Z && (k <=? 21)%Z then
    firstn (Z.to_nat k) ds ++ str "." ++ skipn (Z.to_nat k) ds
  else if (-6 <? k)%Z && (k <=? 0)%Z then str "0." ++ zeros (- k) ++ ds
  else
    let e := (k - 1)%Z in
    let exponent :=
      (if (e <? 0)%Z then str "e-" else str "e+")
      ++ integer_toString (Z.abs e) in
    match ds with
    | [d] => [d] ++ exponent
    | d :: rest => [d] ++ str "." ++ rest ++ exponent
    | [] => exponent
    end.

(** [Number::toString(x)], radix 10. *)
Definition Number_toString (x : number) : jsstring :=
  match Prim2SF x with
  | S754_nan => str "NaN"
  | S754_infinity false => str "Infinity"
  | S754_infinity true => str "-Infinity"
  | S754_zero _ => str "0"
  | S754_finite neg m e =>
      let num := if (0 <=? e)%Z then (Zpos m * 2 ^ e)%Z else Zpos m in
      let den := if (0 <=? e)%Z then 1%Z else (2 ^ (- e))%Z in
      let k0 := decimal_exponent 700 num den (-330) in
      let '(s, k, n) := shortest_digits 17 (PrimFloat.abs x) num den k0 1 in
      (if neg then str "-" else [])
      ++ format_decimal (integer_toString s) k n
  end.

(** *** ToString of a value that came out of JSON.parse *)

Definition unconvertible : Exception :=
  TypeError (str "Cannot convert object to primitive value").

(** [Array.prototype.join] with [","], given the conversion of an
    element. *)
Fixpoint join_items (conv : json -> jsstring + Exception) (items : list json)
    : jsstring + Exception :=
  match items with
  | [] => inl []
  | v :: rest =>
      let item :=
        match v with
        | JNull => inl []
        | _ => conv v
        end in
      match item, rest with
      | inr e, _ => inr e
      | inl t, [] => inl t
      | inl t, _ :: _ =>
          match join_items conv rest with
          | inl ts => inl (t ++ str "," ++ ts)
          | inr e => inr e
          end
      end
  end.

(** [ToString(v)].  An object converts through [Object.prototype.toString]
    unless it has an own [toString] property, which is never callable here:
    then no conversion applies and a [TypeError] is thrown. *)
Fixpoint ToString (v : json) : jsstring + Exception :=
  match v with
  | JNull => inl (str "null")
  | JBool true => inl (str "true")
  | JBool false => inl (str "false")
  | JNum n => inl (Number_toString n)
  | JStr s => inl s
  | JArr items => join_items ToString items
  | JObj props =>
      match lookup (str "toString") props with
      | Some _ => inr unconvertible
      | None => inl (str "[object Object]")
      end
  end.

(** *** JSON.parse *)

Definition is_ws (c : code_unit) : bool :=
  (c =? 9)%N || (c =? 10)%N || (c =? 13)%N || (c =? 32)%N.

Fixpoint skip_ws (s : jsstring) : jsstring :=
  match s with
  | c :: s' => if is_ws c then skip_ws s' else s
  | [] => []
  end.

Definition hex_value (c : code_unit) : option N :=
  if (48 <=? c)%N && (c <=? 57)%N then Some (c - 48)%N
  else if (97 <=? c)%N && (c <=? 102)%N then Some (c - 87)%N
  else if (65 <=? c)%N && (c <=? 70)%N then Some (c - 55)%N
  else None.

Definition hex4 (a b c d : code_unit) : option code_unit :=
  match hex_value a, hex_value b, hex_value c, hex_value d with
  | Some x, Some y, Some z, Some w => Some (((x * 16 + y) * 16 + z) * 16 + w)%N
  | _, _, _, _ => None
  end.

Definition push (c : code_unit) (r : option (jsstring * jsstring))
    : option (jsstring * jsstring) :=
  match r with
  | Some (t, rest) => Some (c :: t, rest)
  | None => None
  end.

(** The characters of a JSON string after its opening quote, up to the
    closing one, and the rest of the input. *)
Fixpoint parse_chars (s : jsstring) : option (jsstring * jsstring) :=
  match s with
  | [] => None
  | 34%N :: rest => Some ([], rest)
  | 92%N :: escape =>
      match escape with
      | 34%N :: r => push 34%N (parse_chars r)
      | 92%N :: r => push 92%N (parse_chars r)
      | 47%N :: r => push 47%N (parse_chars r)
      | 98%N :: r => push 8%N (parse_chars r)
      | 102%N :: r => push 12%N (parse_chars r)
      | 110%N :: r => push 10%N (parse_chars r)
      | 114%N :: r => push 13%N (parse_chars r)
      | 116%N :: r => push 9%N (parse_chars r)
      | 117%N :: a :: b :: c :: d :: r =>
          match hex4 a b c d with
          | Some u => push u (parse_chars r)
          | None => None
          end
      | _ => None
      end
  | c :: rest => if (c <? 32)%N then None else push c (parse_chars rest)
  end.

(** A JSON number at the head of the input. *)
Definition parse_number (s : jsstring) : option (number * jsstring) :=
  let (neg, s0) :=
    match s with
    | 45%N :: r => (true, r)
    | _ => (false, s)
    end in
  let (ip, s1) := take_digits s0 in
  let fraction :=
    match s1 with
    | 46%N :: r =>
        match take_digits r with
        | ([], _) => None
        | (fp, s2) => Some (fp, s2)
        end
    | _ => Some ([], s1)
    end in
  let exponent (s2 : jsstring) :=
    match s2 with
    | c :: r =>
        if (c =? 101)%N || (c =? 69)%N then
          let (eneg, r') := take_sign r in
          match take_digits r' with
          | ([], _) => None
          | (ds, s3) =>
              Some ((if eneg then - digits_value ds else digits_value ds)%Z, s3)
          end
        else Some (0%Z, s2)
    | [] => Some (0%Z, s2)
    end in
  match ip, fraction with
  | [], _ => None
  | 48%N :: _ :: _, _ => None
  | _, None => None
  | _, Some (fp, s2) =>
      match exponent s2 with
      | None => None
      | Some (e, s3) =>
          Some (signed neg
                  (nearest_decimal (digits_value (ip ++ fp))
                                   (e - Z.of_nat (List.length fp))),
                s3)
      end
  end.

(** A JSON value at the head of the input and the rest of the input; the
    elements of an array after its bracket; the members of an object after
    its brace.  Each call uses up a part of the input, so [fuel] above its
    length is enough. *)
Fixpoint parse_value (fuel : nat) (s : jsstring) {struct fuel}
    : option (json * jsstring) :=
  match fuel with
  | O => None
  | S fuel' =>
      match skip_ws s with
      | 123%N :: r =>
          match skip_ws r with
          | 125%N :: r' => Some (JObj [], r')
          | r' => parse_members fuel' r' []
          end
      | 91%N :: r =>
          match skip_ws r with
          | 93%N :: r' => Some (JArr [], r')
          | r' => parse_elements fuel' r' []
          end
      | 34%N :: r =>
          match parse_chars r with
          | Some (t, rest) => Some (JStr t, rest)
          | None => None
          end
      | s' =>
          if startsWith s' (str "true") then Some (JBool true, skipn 4 s')
          else if startsWith s' (str "false") then Some (JBool false, skipn 5 s')
          else if startsWith s' (str "null") then Some (JNull, skipn 4 s')
          else
            match parse_number s' with
            | Some (n, rest) => Some (JNum n, rest)
            | None => None
            end
      end
  end

with parse_elements (fuel : nat) (s : jsstring) (acc : list json)
    {struct fuel} : option (json * jsstring) :=
  match fuel with
  | O => None
  | S fuel' =>
      match parse_value fuel' s with
      | Some (v, rest) =>
          match skip_ws rest with
          | 44%N :: r => parse_elements fuel' r (v :: acc)
          | 93%N :: r => Some (JArr (rev (v :: acc)), r)
          | _ => None
          end
      | None => None
      end
  end

with parse_members (fuel : nat) (s : jsstring)
    (acc : list (jsstring * json)) {struct fuel}
    : option (json * jsstring) :=
  match fuel with
  | O => None
  | S fuel' =>
      match skip_ws s with
      | 34%N :: r =>
          match parse_chars r with
          | Some (k, rest) =>
              match skip_ws rest with
              | 58%N :: r' =>
                  match parse_value fuel' r' with
                  | Some (v, rest') =>
                      match skip_ws rest' with
                      | 44%N :: r'' => parse_members fuel' r'' (set_prop k v acc)
                      | 125%N :: r'' => Some (JObj (set_prop k v acc), r'')
                      | _ => None
                      end
                  | None => None
                  end
              | _ => None
              end
          | None => None
          end
      | _ => None
      end
  end.

(** The message of the [SyntaxError]: its text is the engine's own, and a
    fixed one stands for it. *)
Definition syntax_message : jsstring := str "Unexpected token in JSON".

(** [JSON.parse(text)]. *)
Definition JSON_parse (text : jsstring) : json + jsstring :=
  match parse_value (S (List.length text)) text with
  | Some (v, rest) =>
      match skip_ws rest with
      | [] => inl v
      | _ :: _ => inr syntax_message
      end
  | None => inr syntax_message
  end.

(** The reference host. *)
Definition host : Host :=
  {| JS.parseFloat := parseFloat;
     JS.JSON_parse := JSON_parse;
     JS.ToString := ToString;
     JS.ToString_string := fun s => eq_refl;
     JS.JSON_parse_sentinel := ex_intro _ syntax_message eq_refl |}.

End Node.

(* ===================================================================== *)
(** ** The vocabulary of the statements *)
(* ===================================================================== *)

(** The condition under which the loop of [_request] goes round again. *)
Definition retried (client : Waterlight) (res : Response) (attempt : nat)
    : bool :=
  RETRYABLE_STATUS_has (res_status res)
  && (Z.of_nat attempt <? maxRetries client)%Z.

(** The body [handleError] is given: the parsed one, or [{}]. *)
Definition error_body `{Host} (res : Response) : json :=
  match res_json res with
  | inl v => v
  | inr _ => JObj []
  end.

(** The integer a number is, when it is one. *)
Definition integer_value (x : number) : option Z :=
  match Prim2SF x with
  | S754_zero _ => Some 0%Z
  | S754_finite neg m e =>
      let magnitude :=
        if (0 <=? e)%Z then Some (Zpos m * 2 ^ e)%Z
        else if (Zpos m mod 2 ^ (- e) =? 0)%Z then Some (Zpos m / 2 ^ (- e))%Z
        else None in
      match magnitude with
      | Some z => Some (if neg then - z else z)%Z
      | None => None
      end
  | _ => None
  end.

(** A data line whose stripped payload is the sentinel. *)
Definition is_sentinel_line (line : jsstring) : bool :=
  startsWith line data_prefix && str_eqb (payload line) sentinel.



(** The text of a sequence of frames, each followed by a blank line, and
    the lines of these frames. *)
Definition framed (frames : list jsstring) : jsstring :=
  flat_map (fun f => f ++ delimiter) frames.


(** The error of a buffer that outgrew its bound. *)
Definition overflow : completion unit :=
  Threw (Lib (APIError overflow_message (Some 0%Z) None)).

(** The length of a string, as [buffer.length] gives it. *)
Definition size (s : jsstring) : Z := Z.of_nat (List.length s).


(* ===================================================================== *)
(** ** Concrete responses and streams *)
(* ===================================================================== *)

(** Responses and streams in the manner of the test suite, run on the
    reference host. *)
Module Examples.

(** A string between double quotes. *)
Definition quoted (s : string) : jsstring := [34%N] ++ str s ++ [34%N].

Definition jsonResponse (body : jsstring) : Response :=
  {| res_status := 200;
     res_headers := [(str "content-type", str "application/json")];
     res_body := Some [ReadValue body] |}.

Definition errorResponse (status : Z) (body : jsstring)
    (extraHeaders : Headers) : Response :=
  {| res_status := status;
     res_headers := (str "content-type", str "application/json") :: extraHeaders;
     res_body := Some [ReadValue body] |}.


(** The network that answers the calls of [fetch] with the given outcomes,
    in order, and then with an empty JSON object. *)
Definition answers (outcomes : list fetch_outcome) : network :=
  fun k => nth k outcomes (Resolve (jsonResponse (str "{}"))).

Definition client (maxRetries : Z) : Waterlight :=
  {| apiKey := str "k";
     baseUrl := str "https://api.test";
     timeout := DEFAULT_TIMEOUT;
     maxRetries := maxRetries |}.

Definition a_stream : Stream :=
  Completions_create_stream (client DEFAULT_MAX_RETRIES)
    [(str "model", JStr (str "m"))].

(** [{"a":1}] and [{"b":2}]. *)
Definition a1 : jsstring := str "{" ++ quoted "a" ++ str ":1}".
Definition b2 : jsstring := str "{" ++ quoted "b" ++ str ":2}".

(** [{"error":{"message":"Invalid API key"}}]. *)
Definition invalid_key_body : jsstring :=
  str "{" ++ quoted "error" ++ str ":{" ++ quoted "message" ++ str ":"
    ++ quoted "Invalid API key" ++ str "}}".


(** The rejection of [fetch] when the timer aborts the request. *)
Definition abort_error : Exception :=
  {| exn_name := Some (str "AbortError");
     exn_message := Some (str "This operation was aborted");
     exn_text := str "AbortError: This operation was aborted" |}.


(** Runs of [_request]. *)

(** A 500, retried, then a 401. *)
Definition outage_then_bad_key : network :=
  answers [Resolve (errorResponse 500 (str "{}") []);
           Resolve (errorResponse 401 invalid_key_body [])].

Definition outage_then_bad_key_run : dispatch :=
  {| result :=
       Threw (Lib (AuthenticationError (str "Invalid API key") None));
     attempts := 2;
     sleeps := [500%float] |}.

(** A 429 that asks for two seconds, then a 200. *)
Definition throttled (retry_after : jsstring) : network :=
  answers [Resolve (errorResponse 429 (str "{}")
                      [(str "retry-after", retry_after)])].

Definition throttled_run (delay : number) : dispatch :=
  {| result := Returned (JObj []); attempts := 2; sleeps := [delay] |}.

Definition always_503 : network :=
  fun _ => Resolve (errorResponse 503 (str "{}") []).



Definition timed_out : network := answers [Reject (Other abort_error)].


Definition html_page : network := answers [Resolve (jsonResponse (str "<html>"))].

Definition html_page_run : dispatch :=
  {| result :=
       Threw (Lib (APIError (str "Network error: " ++ Node.syntax_message)
                            (Some 0%Z) None));
     attempts := 1;
     sleeps := [] |}.

(** Streams. *)

Definition data (payload : jsstring) : jsstring := str "data: " ++ payload.





Definition server_error : network :=
  answers [Resolve (errorResponse 500 (str "Server Error") [])].

End Examples.

Import Examples.

(** Options, environments and chunkings for the properties of the
    constructor and of the stream. *)
Module Scenarios.

Definition no_env : Env :=
  {| WATERLIGHT_API_KEY := None; WATERLIGHT_BASE_URL := None |}.

Definition key_in_env : Env :=
  {| WATERLIGHT_API_KEY := Some (str "wl-env"); WATERLIGHT_BASE_URL := None |}.

Definition options (key url : option jsstring) : Options :=
  {| opts_apiKey := key;
     opts_baseUrl := url;
     opts_timeout := None;
     opts_maxRetries := None |}.

(** The client that [new Waterlight({ apiKey: 'wl-test' })] builds. *)
Definition default_client : Waterlight :=
  {| apiKey := str "wl-test";
     baseUrl := str "https://api.waterlight.io";
     timeout := 120000;
     maxRetries := 2 |}.






(** A 204 with no body. *)
Definition no_content : network :=
  answers [Resolve {| res_status := 204; res_headers := []; res_body := None |}].

End Scenarios.

Import Scenarios.

(* ===================================================================== *)
(** ** Strings: searching, slicing and splitting *)
(* ===================================================================== *)

Section Strings.

Implicit Types s t p r : jsstring.

Lemma str_eqb_eq s t : str_eqb s t = true <-> s = t.
Proof.
  revert t. induction s as [| c s IH]; intros [| d t]; simpl;
    try (split; [discriminate | discriminate]); try tauto.
  rewrite andb_true_iff, N.eqb_eq, IH.
  split; [intros [-> ->]; reflexivity | intros [= -> ->]; auto].
Qed.


Lemma startsWith_iff s p : startsWith s p = true <-> exists r, s = p ++ r.
Proof.
  revert s. induction p as [| c p IH]; intros s; simpl.
  - split; [intros _; now exists s | reflexivity].
  - destruct s as [| d s].
    + split; [discriminate | intros [r Hr]; discriminate].
    + rewrite andb_true_iff, N.eqb_eq, IH. split.
      * intros [-> [r ->]]. now exists r.
      * intros [r [= -> ->]]. split; [reflexivity | now exists r].
Qed.

Lemma startsWith_length s p :
  startsWith s p = true -> (List.length p <= List.length s)%nat.
Proof.
  intros Hs. apply startsWith_iff in Hs. destruct Hs as [r ->].
  rewrite length_app. lia.
Qed.



Lemma indexOf_from_bounds s p : forall i,
  indexOf_from s p i = (-1)%Z
  \/ (i <= indexOf_from s p i <= i + Z.of_nat (List.length s))%Z.
Proof.
  induction s as [| c s IH]; intros i; simpl.
  - destruct (startsWith [] p); [right; lia | now left].
  - destruct (startsWith (c :: s) p); [right; lia |].
    destruct (IH (i + 1)%Z) as [-> | Hb]; [now left | right; lia].
Qed.

(** A match leaves room for the pattern. *)
Lemma indexOf_from_fits s p : forall i,
  (0 <= i)%Z ->
  indexOf_from s p i <> (-1)%Z ->
  (indexOf_from s p i - i + Z.of_nat (List.length p)
   <= Z.of_nat (List.length s))%Z.
Proof.
  induction s as [| c s IH]; intros i Hi; simpl.
  - destruct (startsWith [] p) eqn:Hs; [| congruence].
    apply startsWith_length in Hs. simpl in Hs. lia.
  - destruct (startsWith (c :: s) p) eqn:Hs.
    + apply startsWith_length in Hs. simpl in Hs. lia.
    + intros Hf. specialize (IH (i + 1)%Z ltac:(lia) Hf). lia.
Qed.





Lemma indexOf_bounds s p :
  indexOf s p = (-1)%Z
  \/ (0 <= indexOf s p
      /\ indexOf s p + Z.of_nat (List.length p) <= Z.of_nat (List.length s))%Z.
Proof.
  destruct (Z.eq_dec (indexOf s p) (-1)) as [E | E]; [now left | right].
  pose proof (indexOf_from_fits s p 0 ltac:(lia) E).
  destruct (indexOf_from_bounds s p 0) as [E' | Hb]; [contradiction |].
  unfold indexOf. lia.
Qed.

Lemma slice_prefix s (n : nat) :
  (n <= List.length s)%nat -> slice s 0 (Z.of_nat n) = firstn n s.
Proof.
  intros Hn. unfold slice, slice_index.
  change (0 <? 0)%Z with false. cbv iota.
  destruct (Z.of_nat n <? 0)%Z eqn:E; [apply Z.ltb_lt in E; lia |].
  rewrite Z.min_l by lia. rewrite Z.min_l by lia. simpl.
  rewrite Z.sub_0_r, Nat2Z.id. reflexivity.
Qed.

Lemma slice_from_suffix s (n : nat) :
  (n <= List.length s)%nat -> slice_from s (Z.of_nat n) = skipn n s.
Proof.
  intros Hn. unfold slice_from, slice, slice_index.
  destruct (Z.of_nat n <? 0)%Z eqn:E; [apply Z.ltb_lt in E; lia |].
  destruct (Z.of_nat (List.length s) <? 0)%Z eqn:E';
    [apply Z.ltb_lt in E'; lia |].
  rewrite Z.min_l by lia. rewrite Z.min_l by lia.
  rewrite Nat2Z.id.
  replace (Z.to_nat (Z.of_nat (List.length s) - Z.of_nat n))
    with (List.length s - n)%nat by lia.
  apply firstn_all2. rewrite length_skipn. lia.
Qed.


End Strings.

#[global] Arguments startsWith : simpl never.
#[global] Arguments str_eqb : simpl never.
#[global] Arguments indexOf : simpl never.

(* ===================================================================== *)
(** ** Properties of the dispatcher *)
(* ===================================================================== *)

Section Dispatcher.

Context {H : Host}.
Variable client : Waterlight.
Variable net : network.

Lemma RETRYABLE_STATUS_has_spec status :
  RETRYABLE_STATUS_has status = true <->
  In status [429; 500; 502; 503; 504]%Z.
Proof.
  unfold RETRYABLE_STATUS_has, RETRYABLE_STATUS.
  rewrite existsb_exists. split.
  - intros [x [Hin Heq]]. apply Z.eqb_eq in Heq. now subst.
  - intros Hin. exists status. split; [assumption | apply Z.eqb_refl].
Qed.

Lemma retried_spec res attempt :
  retried client res attempt = true <->
  In (res_status res) [429; 500; 502; 503; 504]%Z
  /\ (Z.of_nat attempt < maxRetries client)%Z.
Proof.
  unfold retried. rewrite andb_true_iff, RETRYABLE_STATUS_has_spec, Z.ltb_lt.
  reflexivity.
Qed.

Lemma catch_clause_lib e : exists w, catch_clause e = Lib w.
Proof.
  destruct e as [w | x]; simpl.
  - now exists w.
  - destruct (match exn_name x with Some n => str_eqb n (str "AbortError") | None => false end);
      eexists; reflexivity.
Qed.

(** One iteration on a response that is not ok. *)
Lemma iterate_not_ok attempt res :
  ok res = false ->
  iterate client attempt (Resolve res) =
  if retried client res attempt then Continue (retry_delay res attempt)
  else Exit (Threw (catch_clause
         (handleError (res_status res) (error_body res) (res_headers res)))).
Proof.
  intros Hok. unfold iterate, try_block, retried, error_body.
  rewrite Hok. simpl.
  destruct (RETRYABLE_STATUS_has (res_status res)
            && (Z.of_nat attempt <? maxRetries client)%Z); reflexivity.
Qed.

(** One iteration on a response that is ok. *)
Lemma iterate_ok attempt res :
  ok res = true ->
  iterate client attempt (Resolve res) =
  match res_json res with
  | inl v => Exit (Returned v)
  | inr e => Exit (Threw (catch_clause (Other e)))
  end.
Proof.
  intros Hok. unfold iterate, try_block. rewrite Hok. simpl.
  destruct (res_json res); reflexivity.
Qed.

(** One iteration when [fetch] rejects. *)
Lemma iterate_reject attempt e :
  iterate client attempt (Reject e) = Exit (Threw (catch_clause e)).
Proof. reflexivity. Qed.

(** The loop goes round again only on a response that is not ok and is
    retried. *)
Lemma iterate_continue attempt o delay :
  iterate client attempt o = Continue delay ->
  exists res, o = Resolve res /\ ok res = false
              /\ retried client res attempt = true
              /\ delay = retry_delay res attempt.
Proof.
  destruct o as [res | e].
  - destruct (ok res) eqn:Hok.
    + rewrite (iterate_ok _ _ Hok). destruct (res_json res); discriminate.
    + rewrite (iterate_not_ok _ _ Hok).
      destruct (retried client res attempt) eqn:Hr; [| discriminate].
      intros [= <-]. exists res. auto.
  - rewrite iterate_reject. discriminate.
Qed.

(** What a finished run of the loop from [a0] says of each of its
    iterations: all but the last one slept and went round again, and the
    last one gave the result. *)
Lemma request_loop_spec fuel : forall a0 d,
  request_loop fuel client net a0 = Some d ->
  (1 <= attempts d)%nat
  /\ List.length (sleeps d) = (attempts d - 1)%nat
  /\ (forall k, (S k < attempts d)%nat ->
        exists delay,
          nth_error (sleeps d) k = Some delay
          /\ iterate client (a0 + k) (net (a0 + k)) = Continue delay)
  /\ iterate client (a0 + (attempts d - 1)) (net (a0 + (attempts d - 1)))
     = Exit (result d).
Proof.
  induction fuel as [| fuel IH]; intros a0 d Hrun; [discriminate |].
  simpl in Hrun.
  destruct (iterate client a0 (net a0)) as [delay | c] eqn:Hit.
  - destruct (request_loop fuel client net (S a0)) as [d' |] eqn:Hrest;
      [| discriminate].
    injection Hrun as <-. simpl.
    destruct (IH _ _ Hrest) as (Hpos & Hlen & Hmid & Hlast).
    split; [lia |]. split; [rewrite Hlen; lia |]. split.
    + intros [| k] Hk.
      * exists delay. rewrite Nat.add_0_r. auto.
      * destruct (Hmid k) as (dl & Hnth & Hk'); [lia |].
        exists dl. simpl. split; [assumption |].
        now replace (a0 + S k)%nat with (S a0 + k)%nat by lia.
    + replace (a0 + (attempts d' - 0))%nat
        with (S a0 + (attempts d' - 1))%nat by lia.
      assumption.
  - injection Hrun as <-. simpl.
    split; [lia |]. split; [reflexivity |]. split.
    + intros k Hk. lia.
    + now rewrite Nat.add_0_r.
Qed.

(** More fuel does not change a finished run. *)
Lemma request_loop_fuel fuel : forall fuel' a0 d,
  request_loop fuel client net a0 = Some d ->
  (fuel <= fuel')%nat ->
  request_loop fuel' client net a0 = Some d.
Proof.
  induction fuel as [| fuel IH]; intros fuel' a0 d Hrun Hle; [discriminate |].
  destruct fuel' as [| fuel']; [lia |].
  simpl in *.
  destruct (iterate client a0 (net a0)) as [delay | c]; [| assumption].
  destruct (request_loop fuel client net (S a0)) as [d' |] eqn:Hrest;
    [| discriminate].
  rewrite (IH fuel' _ _ Hrest); [assumption | lia].
Qed.

(** The loop ends within the retries that are left: from [attempt = a0] it
    calls [fetch] at most [maxRetries - a0 + 1] times. *)
Lemma request_loop_terminates fuel : forall a0,
  (Z.to_nat (maxRetries client - Z.of_nat a0) < fuel)%nat ->
  exists d, request_loop fuel client net a0 = Some d
            /\ (attempts d <= Z.to_nat (maxRetries client - Z.of_nat a0) + 1)%nat.
Proof.
  induction fuel as [| fuel IH]; intros a0 Hfuel; [lia |].
  simpl.
  destruct (iterate client a0 (net a0)) as [delay | c] eqn:Hit.
  - destruct (iterate_continue _ _ _ Hit) as (res & _ & _ & Hr & _).
    apply retried_spec in Hr. destruct Hr as [_ Hlt].
    destruct (IH (S a0)) as (d & Hd & Hbound); [lia |].
    rewrite Hd. eexists. split; [reflexivity |]. simpl. lia.
  - eexists. split; [reflexivity |]. simpl. lia.
Qed.

End Dispatcher.



(** C3. With [maxRetries = N], [N] a non-negative integer, and whatever the
    network answers, a call of [_request] ends (the same way for any fuel
    from [N + 1] on) after at most [N + 1] calls of [fetch]. *)
Theorem at_most_maxRetries_plus_one_attempts {H : Host}
    (client : Waterlight) (net : network) (N : Z) :
  maxRetries client = N ->
  (0 <= N)%Z ->
  exists d,
    (forall fuel, (N + 1 <= Z.of_nat fuel)%Z ->
       _request fuel client net = Some d)
    /\ (Z.of_nat (attempts d) <= N + 1)%Z.
Proof.
  intros HN Hpos.
  destruct (request_loop_terminates client net (S (Z.to_nat N)) 0%nat)
    as (d & Hd & Hbound).
  { rewrite HN. simpl. rewrite Z.sub_0_r. lia. }
  exists d. split.
  - intros fuel Hfuel. unfold _request.
    eapply request_loop_fuel; [exact Hd | lia].
  - rewrite HN in Hbound. simpl in Hbound. rewrite Z.sub_0_r in Hbound. lia.
Qed.

(** C2, amended. The a-th sleep of a call of [_request] follows the
    response of attempt [a]; its delay is the value of that response's
    [retry-after] header times 1000 when the header is there and not empty,
    and [500 * 2 ** a] when the header is missing or empty: 500 for
    attempt 0 and 1000 for attempt 1. *)
Theorem retry_delay_from_header_or_backoff {H : Host}
    (fuel : nat) (client : Waterlight) (net : network) (d : dispatch)
    (a : nat) (delay : number) :
  _request fuel client net = Some d ->
  nth_error (sleeps d) a = Some delay ->
  (exists res,
     net a = Resolve res
     /\ (forall v,
           headers_get (res_headers res) (str "retry-after") = Some v ->
           v <> [] ->
           delay = PrimFloat.mul (parseFloat v) 1000)
     /\ (headers_get (res_headers res) (str "retry-after") = None
         \/ headers_get (res_headers res) (str "retry-after") = Some [] ->
         delay = PrimFloat.mul 500 (pow2 a)))
  /\ PrimFloat.mul 500 (pow2 0) = 500%float
  /\ PrimFloat.mul 500 (pow2 1) = 1000%float.
Proof.
  intros Hrun Hnth.
  split; [| split; reflexivity].
  destruct (request_loop_spec _ _ _ _ _ Hrun) as (_ & Hlen & Hmid & _).
  assert (Ha : (S a < attempts d)%nat).
  { assert (a < List.length (sleeps d))%nat
      by (apply nth_error_Some; congruence).
    lia. }
  destruct (Hmid a Ha) as (delay' & Hnth' & Hit).
  rewrite Hnth in Hnth'. injection Hnth' as <-. simpl in Hit.
  destruct (iterate_continue _ _ _ _ Hit) as (res & Hnet & _ & _ & Hdelay).
  exists res. split; [assumption |].
  unfold retry_delay in Hdelay.
  destruct (headers_get (res_headers res) (str "retry-after")) as [[| c v] |];
    simpl in Hdelay; split.
  - intros v [= <-] Hv. now elim Hv.
  - auto.
  - intros v' [= <-] _. assumption.
  - intros [Hnone | Hempty]; discriminate.
  - intros v' Hv'. discriminate.
  - auto.
Qed.

(** X21. The backoff is computed without rounding: up to attempt 1015 the
    delay [500 * 2 ** a] is the integer 500 * 2^a; from attempt 1016 on it
    is [Infinity]. *)
Lemma backoff_is_exact (a : nat) :
  (a <= 1015)%nat ->
  integer_value (PrimFloat.mul 500 (pow2 a)) = Some (500 * 2 ^ Z.of_nat a)%Z.
Proof.
  intros Ha.
  assert (Hall :
    forallb
      (fun a =>
         match integer_value (PrimFloat.mul 500 (pow2 a)) with
         | Some z => (z =? 500 * 2 ^ Z.of_nat a)%Z
         | None => false
         end)
      (seq 0 1016) = true) by (vm_compute; reflexivity).
  rewrite forallb_forall in Hall.
  specialize (Hall a ltac:(apply in_seq; lia)).
  destruct (integer_value (PrimFloat.mul 500 (pow2 a))) as [z |];
    [| discriminate].
  apply Z.eqb_eq in Hall. now subst.
Qed.

Lemma backoff_overflows :
  PrimFloat.mul 500 (pow2 1016) = infinity.
Proof. reflexivity. Qed.






(* ===================================================================== *)
(** ** Properties of the event decoder *)
(* ===================================================================== *)

Section Decoder.

Context {H : Host}.



(** [drain_fuel] one iteration at a time. *)
Lemma drain_fuel_step fuel buffer :
  drain_fuel (S fuel) buffer =
  let boundary := indexOf buffer delimiter in
  if (boundary =? -1)%Z then ([], Some buffer)
  else
    match for_lines (split (slice buffer 0 boundary) LF) with
    | (vs, true) => (vs, None)
    | (vs, false) =>
        let (vs', kept) := drain_fuel fuel (slice_from buffer (boundary + 2)) in
        (vs ++ vs', kept)
    end.
Proof. reflexivity. Qed.

Lemma drain_fuel_none fuel buffer :
  indexOf buffer delimiter = (-1)%Z ->
  drain_fuel fuel buffer = ([], Some buffer).
Proof.
  intros Hnone. destruct fuel; simpl; now rewrite Hnone.
Qed.

(** Where the first blank line of a buffer is, when there is one: what
    [slice] cuts off before and after it. *)
Lemma boundary_found buffer :
  indexOf buffer delimiter <> (-1)%Z ->
  exists n,
    indexOf buffer delimiter = Z.of_nat n
    /\ (n + 2 <= List.length buffer)%nat
    /\ slice buffer 0 (indexOf buffer delimiter) = firstn n buffer
    /\ slice_from buffer (indexOf buffer delimiter + 2) = skipn (n + 2) buffer.
Proof.
  intros Hf.
  destruct (indexOf_bounds buffer delimiter) as [E | [Hlo Hhi]];
    [contradiction |].
  simpl in Hhi.
  exists (Z.to_nat (indexOf buffer delimiter)).
  rewrite Z2Nat.id by assumption.
  split; [reflexivity |]. split; [lia |]. split.
  - rewrite <- (Z2Nat.id (indexOf buffer delimiter)) at 1 by assumption.
    apply slice_prefix. lia.
  - replace (indexOf buffer delimiter + 2)%Z
      with (Z.of_nat (Z.to_nat (indexOf buffer delimiter) + 2)) by lia.
    apply slice_from_suffix. lia.
Qed.

(** Fuel above the length of the buffer is never used up. *)
Lemma drain_fuel_enough n : forall buffer fuel fuel',
  (List.length buffer <= n)%nat ->
  (n <= fuel)%nat -> (n <= fuel')%nat ->
  drain_fuel fuel buffer = drain_fuel fuel' buffer.
Proof.
  induction n as [| n IH]; intros buffer fuel fuel' Hlen Hf Hf'.
  - destruct buffer; [| simpl in Hlen; lia].
    now rewrite !drain_fuel_none.
  - destruct (Z.eq_dec (indexOf buffer delimiter) (-1)) as [E | E].
    + now rewrite !drain_fuel_none.
    + destruct fuel as [| fuel]; [lia |]. destruct fuel' as [| fuel']; [lia |].
      rewrite !drain_fuel_step. cbv zeta.
      destruct (boundary_found buffer E) as (k & _ & Hk & _ & ->).
      rewrite (IH (skipn (k + 2) buffer) fuel fuel');
        [reflexivity | rewrite length_skipn; lia | lia | lia].
Qed.

(** The inner loop, one iteration at a time. *)
Lemma drain_unfold buffer :
  drain buffer =
  let boundary := indexOf buffer delimiter in
  if (boundary =? -1)%Z then ([], Some buffer)
  else
    match for_lines (split (slice buffer 0 boundary) LF) with
    | (vs, true) => (vs, None)
    | (vs, false) =>
        let (vs', kept) := drain (slice_from buffer (boundary + 2)) in
        (vs ++ vs', kept)
    end.
Proof.
  unfold drain.
  destruct (Z.eq_dec (indexOf buffer delimiter) (-1)) as [E | E].
  - rewrite drain_fuel_none by assumption. cbv zeta. now rewrite E.
  - destruct (boundary_found buffer E) as (k & _ & Hk & _ & Hrest).
    destruct (List.length buffer) as [| n] eqn:Hlen; [lia |].
    rewrite drain_fuel_step. cbv zeta. rewrite Hrest.
    rewrite (drain_fuel_enough (List.length (skipn (k + 2) buffer))
               (skipn (k + 2) buffer) n
               (List.length (skipn (k + 2) buffer)));
      [reflexivity | lia | rewrite length_skipn; lia | lia].
Qed.


(** Induction on the length of a buffer. *)
Lemma buffer_induction (P : jsstring -> Prop) :
  (forall buffer,
     (forall shorter,
        (List.length shorter < List.length buffer)%nat -> P shorter) ->
     P buffer) ->
  forall buffer, P buffer.
Proof.
  intros Hstep buffer.
  remember (List.length buffer) as n eqn:Hn.
  revert buffer Hn.
  induction n as [n IH] using (well_founded_induction Nat.lt_wf_0).
  intros buffer ->. apply Hstep. intros shorter Hlt.
  now apply (IH (List.length shorter)).
Qed.

(** What the inner loop leaves has no blank line and is no longer than the
    buffer. *)
Lemma drain_leftover : forall buffer vs kept,
  drain buffer = (vs, Some kept) ->
  indexOf kept delimiter = (-1)%Z
  /\ (List.length kept <= List.length buffer)%nat.
Proof.
  intros buffer. pattern buffer. apply buffer_induction.
  clear buffer. intros buffer IH.
  intros vs kept. rewrite drain_unfold. cbv zeta.
  destruct (Z.eq_dec (indexOf buffer delimiter) (-1)) as [E | E].
  - rewrite E. simpl. intros [= <- <-]. split; [assumption | lia].
  - rewrite (proj2 (Z.eqb_neq _ _) E).
    destruct (boundary_found buffer E) as (k & _ & Hk & _ & ->).
    destruct (for_lines _) as [vs1 [|]]; [discriminate |].
    destruct (drain (skipn (k + 2) buffer)) as [vs2 left2] eqn:Hrest.
    intros [= <- ->].
    assert (Hshort : (List.length (skipn (k + 2) buffer)
                      < List.length buffer)%nat)
      by (rewrite length_skipn; lia).
    destruct (IH _ Hshort _ _ Hrest) as [Hnone Hlen].
    split; [assumption | lia].
Qed.






End Decoder.

Section ReadLoop.

Context {H : Host}.

Lemma read_step_value buffer text :
  read_step buffer (ReadValue text) =
  if (MAX_SSE_BUFFER <? size (buffer ++ text))%Z then Stop [] overflow
  else
    match drain (buffer ++ text) with
    | (vs, None) => Stop vs (Returned tt)
    | (vs, Some buffer') => Next vs buffer'
    end.
Proof. reflexivity. Qed.







End ReadLoop.

Section DecoderClaims.

Context {H : Host}.

Lemma sentinel_line_spec line :
  is_sentinel_line line = true <->
  startsWith line data_prefix = true /\ payload line = sentinel.
Proof.
  unfold is_sentinel_line. now rewrite andb_true_iff, str_eqb_eq.
Qed.

(** A payload that is JSON is not the sentinel. *)
Lemma json_is_not_sentinel line v :
  JSON_parse (payload line) = inl v -> is_sentinel_line line = false.
Proof.
  intros Hv. destruct (is_sentinel_line line) eqn:E; [| reflexivity].
  apply sentinel_line_spec in E. destruct E as [_ E].
  destruct JSON_parse_sentinel as [m Hm].
  rewrite E in Hv. unfold sentinel in Hv. congruence.
Qed.


Lemma no_sentinel_among_data_lines lines :
  Forall (fun l => is_sentinel_line l = false)
         (filter (fun l => startsWith l data_prefix) lines) ->
  Forall (fun l => is_sentinel_line l = false) lines.
Proof.
  rewrite !Forall_forall. intros Hdata l Hl.
  destruct (startsWith l data_prefix) eqn:E.
  - apply Hdata. apply filter_In. auto.
  - unfold is_sentinel_line. now rewrite E.
Qed.





(** C9. When the response to the request of a stream is not 2xx, the
    iteration calls [fetch] once, reads the text of the response and throws
    a plain [WaterlightError] that carries the status, whatever the status
    and whatever the client's [maxRetries]: no error class is selected by
    the status and nothing is tried again. *)
Theorem streaming_error_is_not_classified
    (client : Waterlight) (params : list (jsstring * json)) (net : network)
    (res : Response) :
  net 0%nat = Resolve res ->
  ok res = false ->
  exists e : WaterlightError,
    asyncIterator (Completions_create_stream client params) net =
    {| yielded := []; fetches := 1; reads := 0; completed := Threw (Lib e) |}
    /\ class e = WaterlightError_class
    /\ status e = Some (res_status res)
    /\ message e =
       str "Streaming error: " ++ integer_toString (res_status res)
         ++ str " "
         ++ match res_text res with
            | inl t => t
            | inr _ => []
            end.
Proof.
  intros Hnet Hok. unfold asyncIterator. rewrite Hnet, Hok. simpl.
  eexists. split; [reflexivity |]. repeat split.
Qed.

End DecoderClaims.

(* ===================================================================== *)
(** ** The properties on concrete runs *)
(* ===================================================================== *)


(** With [maxRetries = 2] and a server that always answers 503, the call
    ends after three attempts. *)
Lemma at_most_maxRetries_plus_one_attempts_witness :
  exists d,
    (forall fuel, (2 + 1 <= Z.of_nat fuel)%Z ->
       _request (H := Node.host) fuel (client 2) always_503 = Some d)
    /\ (Z.of_nat (attempts d) <= 2 + 1)%Z.
Proof.
  apply (at_most_maxRetries_plus_one_attempts (H := Node.host)
           (client 2) always_503 2); [reflexivity | lia].
Defined.

(** A 429 with [retry-after: 2] is retried after 2000 ms. *)
Lemma retry_delay_from_header_or_backoff_witness :
  (exists res,
     throttled (str "2") 0%nat = Resolve res
     /\ (forall v,
           headers_get (res_headers res) (str "retry-after") = Some v ->
           v <> [] ->
           2000%float = PrimFloat.mul (Node.parseFloat v) 1000)
     /\ (headers_get (res_headers res) (str "retry-after") = None
         \/ headers_get (res_headers res) (str "retry-after") = Some [] ->
         2000%float = PrimFloat.mul 500 (pow2 0)))
  /\ PrimFloat.mul 500 (pow2 0) = 500%float
  /\ PrimFloat.mul 500 (pow2 1) = 1000%float.
Proof.
  apply (retry_delay_from_header_or_backoff (H := Node.host)
           3 (client 1) (throttled (str "2")) (throttled_run 2000%float) 0 2000%float);
    reflexivity.
Defined.

(** C2 as stated does not hold: a [retry-after] header that is there and
    empty is not used, so the retry sleeps the backoff of 500 ms, not the
    header's value times 1000, which is not a number. *)
Lemma empty_retry_after_header_is_ignored :
  throttled [] 0%nat = Resolve (errorResponse 429 (str "{}")
                                  [(str "retry-after", [])])
  /\ headers_get (res_headers (errorResponse 429 (str "{}")
                                 [(str "retry-after", [])]))
                 (str "retry-after") = Some []
  /\ _request (H := Node.host) 3 (client 1) (throttled [])
     = Some (throttled_run 500%float)
  /\ PrimFloat.mul (Node.parseFloat []) 1000 = nan
  /\ 500%float <> PrimFloat.mul (Node.parseFloat []) 1000.
Proof.
  repeat split.
  intros E. apply (f_equal PrimFloat.is_nan) in E. discriminate E.
Qed.







(** A response with status 500 on the stream's request. *)
Lemma streaming_error_is_not_classified_witness :
  exists e : WaterlightError,
    asyncIterator (H := Node.host)
      (Completions_create_stream (client 2) []) server_error =
    {| yielded := []; fetches := 1; reads := 0; completed := Threw (Lib e) |}
    /\ class e = WaterlightError_class
    /\ status e = Some 500%Z
    /\ message e = str "Streaming error: 500 Server Error".
Proof.
  apply (streaming_error_is_not_classified (H := Node.host)
           (client 2) [] server_error
           (errorResponse 500 (str "Server Error") []));
    reflexivity.
Defined.




(* ===================================================================== *)
(** ** The constructor *)
(* ===================================================================== *)

Section Slashes.

Implicit Types s u r : jsstring.

Lemma only_slashes_repeat n : forallb (N.eqb slash) (repeat slash n) = true.
Proof. induction n as [| n IH]; [reflexivity | exact IH]. Qed.

Lemma only_slashes_spec s :
  forallb (N.eqb slash) s = true -> s = repeat slash (List.length s).
Proof.
  induction s as [| c s IH]; [reflexivity |].
  cbn [forallb]. intros Hs. apply andb_true_iff in Hs. destruct Hs as [Hc Hs].
  apply N.eqb_eq in Hc. subst c. cbn [List.length repeat]. now rewrite <- IH.
Qed.

(** Nothing is left exactly when the string holds only slashes. *)
Lemma replace_trailing_slashes_nil s :
  replace_trailing_slashes s = [] <-> forallb (N.eqb slash) s = true.
Proof.
  destruct s as [| c s]; [split; reflexivity |].
  cbn [replace_trailing_slashes].
  destruct (forallb (N.eqb slash) (c :: s)); split; intros E;
    try reflexivity; discriminate E.
Qed.

(** Slashes at the end make no difference. *)
Lemma replace_trailing_slashes_app u n :
  replace_trailing_slashes (u ++ repeat slash n) = replace_trailing_slashes u.
Proof.
  induction u as [| c u IH].
  - apply replace_trailing_slashes_nil, only_slashes_repeat.
  - rewrite <- app_comm_cons. cbn [replace_trailing_slashes].
    rewrite IH, app_comm_cons, forallb_app, only_slashes_repeat, andb_true_r.
    reflexivity.
Qed.

(** Only slashes are taken out, and only at the end. *)
Lemma replace_trailing_slashes_spec s :
  exists n, s = replace_trailing_slashes s ++ repeat slash n.
Proof.
  induction s as [| c s [n IH]]; [now exists 0%nat |].
  cbn [replace_trailing_slashes].
  destruct (forallb (N.eqb slash) (c :: s)) eqn:E.
  - exists (List.length (c :: s)). now apply only_slashes_spec.
  - exists n. rewrite <- app_comm_cons. now rewrite <- IH.
Qed.

(** No slash is left at the end. *)
Lemma replace_trailing_slashes_end s r :
  replace_trailing_slashes s <> r ++ [slash].
Proof.
  revert r. induction s as [| c s IH]; intros r.
  - now destruct r.
  - cbn [replace_trailing_slashes].
    destruct (forallb (N.eqb slash) (c :: s)) eqn:E; [now destruct r |].
    destruct r as [| d r]; cbn [app].
    + intros [= -> Hnil]. apply replace_trailing_slashes_nil in Hnil.
      cbn [forallb] in E. rewrite Hnil, N.eqb_refl in E. discriminate E.
    + intros [= _ Hrest]. exact (IH r Hrest).
Qed.

(** [slice(0, 40)] is the first 40 code units. *)
Lemma slice_first s (n : nat) : slice s 0 (Z.of_nat n) = firstn n s.
Proof.
  destruct (Nat.le_gt_cases n (List.length s)) as [Hle | Hgt].
  - now apply slice_prefix.
  - unfold slice, slice_index.
    change (0 <? 0)%Z with false. cbv iota.
    destruct (Z.of_nat n <? 0)%Z eqn:E; [apply Z.ltb_lt in E; lia |].
    rewrite (Z.min_l 0) by lia. rewrite Z.min_r by lia.
    cbn [Z.to_nat skipn]. rewrite Z.sub_0_r, Nat2Z.id.
    rewrite firstn_all. symmetry. apply firstn_all2. lia.
Qed.

End Slashes.

(** X1. A client that the constructor returns has a key that is not empty
    and a base URL that starts with [https://], [http://localhost] or
    [http://127.0.0.1] and does not end with a slash: it is the configured
    URL without the slashes at its end. *)
Theorem constructed_client_is_well_formed
    (env : Env) (opts : Options) (c : Waterlight) :
  new_Waterlight env opts = Returned c ->
  resolved_key env opts = Some (apiKey c)
  /\ apiKey c <> []
  /\ (startsWith (baseUrl c) (str "https://") = true
      \/ startsWith (baseUrl c) (str "http://localhost") = true
      \/ startsWith (baseUrl c) (str "http://127.0.0.1") = true)
  /\ (forall r, baseUrl c <> r ++ [slash])
  /\ (exists n, configured_url env opts = baseUrl c ++ repeat slash n).
Proof.
  unfold new_Waterlight.
  destruct (resolved_key env opts) as [[| k key] |]; try discriminate.
  destruct (secure_or_local (replace_trailing_slashes (configured_url env opts)))
    eqn:Hurl; [| discriminate].
  cbn [negb]. intros [= <-]. cbn [apiKey baseUrl].
  split; [reflexivity |]. split; [discriminate |]. split; [| split].
  - unfold secure_or_local in Hurl.
    destruct (startsWith _ (str "https://")); [now left |].
    destruct (startsWith _ (str "http://localhost")); [now right; left |].
    destruct (startsWith _ (str "http://127.0.0.1")); [now right; right |].
    discriminate Hurl.
  - apply replace_trailing_slashes_end.
  - apply replace_trailing_slashes_spec.
Qed.

Lemma constructed_client_is_well_formed_witness :
  resolved_key no_env (options (Some (str "wl-test")) (Some (str "https://api.waterlight.io//")))
  = Some (apiKey default_client)
  /\ apiKey default_client <> []
  /\ (startsWith (baseUrl default_client) (str "https://") = true
      \/ startsWith (baseUrl default_client) (str "http://localhost") = true
      \/ startsWith (baseUrl default_client) (str "http://127.0.0.1") = true)
  /\ (forall r, baseUrl default_client <> r ++ [slash])
  /\ (exists n,
        configured_url no_env
          (options (Some (str "wl-test")) (Some (str "https://api.waterlight.io//")))
        = baseUrl default_client ++ repeat slash n).
Proof.
  apply (constructed_client_is_well_formed no_env
           (options (Some (str "wl-test"))
                    (Some (str "https://api.waterlight.io//")))
           default_client).
  reflexivity.
Defined.

(** X2. The constructor throws the error that asks for a key exactly when
    the [apiKey] option is the empty string, or is missing while the
    environment variable is not set or is empty.  An [apiKey] option that is
    the empty string is not replaced by the variable, and the key is checked
    before the URL. *)
Theorem constructor_requires_a_key (env : Env) (opts : Options) :
  new_Waterlight env opts
  = Threw (Lib (new_WaterlightError key_required_message None None))
  <-> opts_apiKey opts = Some []
      \/ (opts_apiKey opts = None
          /\ (WATERLIGHT_API_KEY env = None
              \/ WATERLIGHT_API_KEY env = Some [])).
Proof.
  unfold new_Waterlight, resolved_key, coalesce.
  destruct (opts_apiKey opts) as [[| c k] |].
  - split; [now left | reflexivity].
  - destruct (negb _).
    + split; [intros [= E]; discriminate E |].
      intros [E | [E _]]; discriminate E.
    + split; [discriminate |]. intros [E | [E _]]; discriminate E.
  - destruct (WATERLIGHT_API_KEY env) as [[| c k] |].
    + split; [right; auto | reflexivity].
    + destruct (negb _).
      * split; [intros [= E]; discriminate E |].
        intros [E | [_ [E | E]]]; discriminate E.
      * split; [discriminate |]. intros [E | [_ [E | E]]]; discriminate E.
    + split; [right; auto | reflexivity].
Qed.

(** X3. Slashes at the end of the base URL make no difference to what the
    constructor does: it returns the same client, or throws the same
    error. *)
Theorem trailing_slashes_do_not_matter
    (env : Env) (key : option jsstring) (url : jsstring) (n : nat)
    (t r : option Z) :
  new_Waterlight env
    {| opts_apiKey := key; opts_baseUrl := Some (url ++ repeat slash n);
       opts_timeout := t; opts_maxRetries := r |}
  = new_Waterlight env
      {| opts_apiKey := key; opts_baseUrl := Some url;
         opts_timeout := t; opts_maxRetries := r |}.
Proof.
  unfold new_Waterlight, resolved_key, configured_url, coalesce.
  cbn [opts_apiKey opts_baseUrl opts_timeout opts_maxRetries].
  now rewrite replace_trailing_slashes_app.
Qed.

(** X4. With a key, a base URL that after the removal of its final slashes
    starts with none of [https://], [http://localhost], [http://127.0.0.1]
    makes the constructor throw a plain [WaterlightError] with no status,
    whose message quotes the first 40 code units of that URL and no more. *)
Theorem insecure_base_url_is_rejected
    (env : Env) (opts : Options) (c : code_unit) (key : jsstring) :
  resolved_key env opts = Some (c :: key) ->
  secure_or_local (replace_trailing_slashes (configured_url env opts)) = false ->
  exists e shown,
    new_Waterlight env opts = Threw (Lib e)
    /\ class e = WaterlightError_class
    /\ status e = None
    /\ message e =
       str "baseUrl must use HTTPS (got: " ++ shown
         ++ str "...). HTTP is only allowed for localhost development."
    /\ shown = firstn 40 (replace_trailing_slashes (configured_url env opts))
    /\ (List.length shown <= 40)%nat.
Proof.
  intros Hkey Hurl. unfold new_Waterlight. rewrite Hkey, Hurl. cbn [negb].
  eexists. eexists. split; [reflexivity |].
  split; [reflexivity |]. split; [reflexivity |].
  cbn [message new_WaterlightError]. unfold insecure_url_message.
  change 40%Z with (Z.of_nat 40). rewrite slice_first.
  split; [reflexivity |]. split; [reflexivity |]. apply firstn_le_length.
Qed.

Lemma insecure_base_url_is_rejected_witness :
  exists e shown,
    new_Waterlight no_env
      (options (Some (str "wl-test"))
               (Some (str "http://api.example.com/a/very/long/path/that/goes/on/")))
    = Threw (Lib e)
    /\ class e = WaterlightError_class
    /\ status e = None
    /\ message e =
       str "baseUrl must use HTTPS (got: " ++ shown
         ++ str "...). HTTP is only allowed for localhost development."
    /\ shown =
       firstn 40
         (replace_trailing_slashes
            (configured_url no_env
               (options (Some (str "wl-test"))
                  (Some (str "http://api.example.com/a/very/long/path/that/goes/on/")))))
    /\ (List.length shown <= 40)%nat.
Proof.
  apply (insecure_base_url_is_rejected no_env
           (options (Some (str "wl-test"))
              (Some (str "http://api.example.com/a/very/long/path/that/goes/on/")))
           119%N (str "l-test"));
    reflexivity.
Defined.

(* ===================================================================== *)
(** ** Further properties of the dispatcher *)
(* ===================================================================== *)

Section DispatcherRuns.

Context {H : Host}.

(** An iteration that throws throws an error of the library. *)
Lemma iterate_threw client attempt o t :
  iterate client attempt o = Exit (Threw t) -> exists w, t = Lib w.
Proof.
  unfold iterate.
  destruct (try_block client attempt o) as [delay | [v | e]]; try discriminate.
  intros [= <-]. apply catch_clause_lib.
Qed.

(** An iteration that returns got a 2xx response whose body is JSON. *)
Lemma iterate_returned client attempt o v :
  iterate client attempt o = Exit (Returned v) ->
  exists res, o = Resolve res /\ ok res = true /\ res_json res = inl v.
Proof.
  destruct o as [res | e]; [| rewrite iterate_reject; discriminate].
  destruct (ok res) eqn:Hok.
  - rewrite (iterate_ok _ _ _ Hok).
    destruct (res_json res) as [v' | e] eqn:Hjson; [| discriminate].
    intros [= ->]. now exists res.
  - rewrite (iterate_not_ok _ _ _ Hok).
    destruct (retried client res attempt); discriminate.
Qed.

(** While attempts are left under both bounds, an iteration does not depend
    on the bound. *)
Lemma iterate_maxRetries client client' attempt o :
  (Z.of_nat attempt < maxRetries client)%Z ->
  (Z.of_nat attempt < maxRetries client')%Z ->
  iterate client attempt o = iterate client' attempt o.
Proof.
  intros Hlt Hlt'. unfold iterate, try_block.
  apply Z.ltb_lt in Hlt, Hlt'. now rewrite Hlt, Hlt'.
Qed.

Lemma request_loop_maxRetries client client' net fuel : forall a0 d,
  (maxRetries client <= maxRetries client')%Z ->
  request_loop fuel client net a0 = Some d ->
  (Z.of_nat (a0 + attempts d) <= maxRetries client)%Z ->
  request_loop fuel client' net a0 = Some d.
Proof.
  induction fuel as [| fuel IH]; intros a0 d Hle Hrun Hleft; [discriminate |].
  pose proof (request_loop_spec _ _ _ _ _ Hrun) as (Hpos & _).
  cbn [request_loop] in Hrun |- *.
  rewrite <- (iterate_maxRetries client client') by lia.
  destruct (iterate client a0 (net a0)) as [delay | c]; [| exact Hrun].
  destruct (request_loop fuel client net (S a0)) as [d' |] eqn:Hrest;
    [| discriminate].
  injection Hrun as <-. cbn [attempts] in Hleft.
  rewrite (IH (S a0) d' Hle Hrest) by lia. reflexivity.
Qed.

End DispatcherRuns.

(** X5. Whatever the network does, an error that [_request] throws is an
    error of the library: an instance of [WaterlightError]. *)
Theorem request_throws_only_library_errors {H : Host}
    (fuel : nat) (client : Waterlight) (net : network) (d : dispatch)
    (t : thrown) :
  _request fuel client net = Some d ->
  result d = Threw t ->
  exists e : WaterlightError, t = Lib e.
Proof.
  intros Hrun Hres.
  destruct (request_loop_spec _ _ _ _ _ Hrun) as (_ & _ & _ & Hlast).
  rewrite Hres in Hlast. exact (iterate_threw _ _ _ _ Hlast).
Qed.

Lemma request_throws_only_library_errors_witness :
  exists e : WaterlightError,
    Lib (APIError (str "Network error: " ++ Node.syntax_message) (Some 0%Z) None)
    = Lib e.
Proof.
  apply (request_throws_only_library_errors (H := Node.host)
           1 (client 2) html_page html_page_run); reflexivity.
Defined.

(** X6. When [_request] returns a value, the response to its last attempt is
    2xx and the value is the JSON of its body; each attempt before it got a
    response that is not 2xx, with a status of the retry set, while attempts
    were left; and one sleep went before each attempt but the first. *)
Theorem request_returns_the_first_success {H : Host}
    (fuel : nat) (client : Waterlight) (net : network) (d : dispatch)
    (v : json) :
  _request fuel client net = Some d ->
  result d = Returned v ->
  (exists res,
     net (attempts d - 1)%nat = Resolve res
     /\ ok res = true
     /\ res_json res = inl v)
  /\ (forall k, (S k < attempts d)%nat ->
        exists res,
          net k = Resolve res
          /\ ok res = false
          /\ In (res_status res) [429; 500; 502; 503; 504]%Z
          /\ (Z.of_nat k < maxRetries client)%Z)
  /\ List.length (sleeps d) = (attempts d - 1)%nat.
Proof.
  intros Hrun Hres.
  destruct (request_loop_spec _ _ _ _ _ Hrun) as (_ & Hlen & Hmid & Hlast).
  rewrite Hres in Hlast. cbn [Nat.add] in Hlast.
  split; [exact (iterate_returned _ _ _ _ Hlast) |].
  split; [| exact Hlen].
  intros k Hk. destruct (Hmid k Hk) as (delay & _ & Hit). cbn [Nat.add] in Hit.
  destruct (iterate_continue _ _ _ _ Hit) as (res & Hnet & Hok & Hr & _).
  apply retried_spec in Hr. exists res. tauto.
Qed.

Lemma request_returns_the_first_success_witness :
  (exists res,
     throttled (str "2") (attempts (throttled_run 2000%float) - 1)%nat
     = Resolve res
     /\ ok res = true
     /\ res_json (H := Node.host) res = inl (JObj []))
  /\ (forall k, (S k < attempts (throttled_run 2000%float))%nat ->
        exists res,
          throttled (str "2") k = Resolve res
          /\ ok res = false
          /\ In (res_status res) [429; 500; 502; 503; 504]%Z
          /\ (Z.of_nat k < maxRetries (client 1))%Z)
  /\ List.length (sleeps (throttled_run 2000%float))
     = (attempts (throttled_run 2000%float) - 1)%nat.
Proof.
  apply (request_returns_the_first_success (H := Node.host)
           3 (client 1) (throttled (str "2")) (throttled_run 2000%float)
           (JObj []));
    reflexivity.
Defined.

(** X7. With [maxRetries] zero or negative, [_request] calls [fetch] once
    and never sleeps, whatever the response. *)
Theorem no_retries_means_one_attempt {H : Host}
    (client : Waterlight) (net : network) (fuel : nat) :
  (maxRetries client <= 0)%Z ->
  exists c,
    _request (S fuel) client net
    = Some {| result := c; attempts := 1; sleeps := [] |}.
Proof.
  intros Hmax. unfold _request. cbn [request_loop].
  destruct (iterate client 0 (net 0%nat)) as [delay | c] eqn:Hit.
  - destruct (iterate_continue _ _ _ _ Hit) as (res & _ & _ & Hr & _).
    apply retried_spec in Hr. cbn in Hr. lia.
  - now exists c.
Qed.

Lemma no_retries_means_one_attempt_witness :
  exists c,
    _request (H := Node.host) 1 (client 0) always_503
    = Some {| result := c; attempts := 1; sleeps := [] |}.
Proof.
  apply (no_retries_means_one_attempt (H := Node.host) (client 0) always_503 0).
  cbn. lia.
Defined.

(** X8. A call that ends with attempts left ends the same way under any
    larger [maxRetries]: the bound matters only to the calls that reach
    it. *)
Theorem larger_maxRetries_keeps_finished_calls {H : Host}
    (fuel : nat) (client : Waterlight) (net : network) (d : dispatch)
    (N : Z) :
  _request fuel client net = Some d ->
  (Z.of_nat (attempts d) <= maxRetries client)%Z ->
  (maxRetries client <= N)%Z ->
  _request fuel
    {| apiKey := apiKey client; baseUrl := baseUrl client;
       timeout := timeout client; maxRetries := N |}
    net
  = Some d.
Proof.
  intros Hrun Hleft HN. unfold _request in *.
  apply (request_loop_maxRetries client); cbn [maxRetries Nat.add]; assumption.
Qed.

Lemma larger_maxRetries_keeps_finished_calls_witness :
  _request (H := Node.host) 3
    {| apiKey := apiKey (client 2); baseUrl := baseUrl (client 2);
       timeout := timeout (client 2); maxRetries := 5 |}
    outage_then_bad_key
  = Some outage_then_bad_key_run.
Proof.
  apply (larger_maxRetries_keeps_finished_calls (H := Node.host)
           3 (client 2) outage_then_bad_key outage_then_bad_key_run 5);
    [reflexivity | cbn; lia | cbn; lia].
Defined.

(** X9. A client built without the [maxRetries] option calls [fetch] at most
    three times in one [_request], whatever the network answers; one built
    with [maxRetries: 0] keeps the zero and calls it once. *)
Theorem default_client_makes_at_most_three_attempts {H : Host}
    (env : Env) (opts : Options) (c : Waterlight) (net : network) :
  new_Waterlight env opts = Returned c ->
  (opts_maxRetries opts = None ->
   exists d,
     (forall fuel, (3 <= fuel)%nat -> _request fuel c net = Some d)
     /\ (attempts d <= 3)%nat)
  /\ (opts_maxRetries opts = Some 0%Z ->
      exists d,
        (forall fuel, (1 <= fuel)%nat -> _request fuel c net = Some d)
        /\ attempts d = 1%nat).
Proof.
  intros Hnew.
  assert (Hmax : maxRetries c =
                 match opts_maxRetries opts with
                 | Some n => n
                 | None => DEFAULT_MAX_RETRIES
                 end).
  { unfold new_Waterlight in Hnew.
    destruct (resolved_key env opts) as [[| k key] |]; try discriminate.
    destruct (negb _); [discriminate |]. now injection Hnew as <-. }
  split; intros Hopt; rewrite Hopt in Hmax.
  - destruct (request_loop_terminates c net 3 0%nat) as (d & Hd & Hbound).
    { rewrite Hmax. cbn. lia. }
    rewrite Hmax in Hbound. exists d. split.
    + intros fuel Hfuel. exact (request_loop_fuel c net 3 fuel 0%nat d Hd Hfuel).
    + cbn in Hbound. lia.
  - destruct (request_loop_terminates c net 1 0%nat) as (d & Hd & Hbound).
    { rewrite Hmax. cbn. lia. }
    rewrite Hmax in Hbound. exists d. split.
    + intros fuel Hfuel. exact (request_loop_fuel c net 1 fuel 0%nat d Hd Hfuel).
    + destruct (request_loop_spec _ _ _ _ _ Hd) as (Hpos & _).
      cbn in Hbound. lia.
Qed.

Lemma default_client_makes_at_most_three_attempts_witness :
  (opts_maxRetries (options (Some (str "wl-test")) None) = None ->
   exists d,
     (forall fuel, (3 <= fuel)%nat ->
        _request (H := Node.host) fuel default_client always_503 = Some d)
     /\ (attempts d <= 3)%nat)
  /\ (opts_maxRetries (options (Some (str "wl-test")) None) = Some 0%Z ->
      exists d,
        (forall fuel, (1 <= fuel)%nat ->
           _request (H := Node.host) fuel default_client always_503 = Some d)
        /\ attempts d = 1%nat).
Proof.
  apply (default_client_makes_at_most_three_attempts (H := Node.host)
           no_env (options (Some (str "wl-test")) None) default_client
           always_503).
  reflexivity.
Defined.

(** X10. The error [handleError] throws, when it is one of the library,
    carries the status it was given and the [x-request-id] header as its
    request id, whatever its class; only a [RateLimitError], thrown for 429
    and for nothing else, carries a [retryAfter]. *)
Theorem handleError_keeps_status_and_request_id {H : Host}
    (status : Z) (body : json) (headers : Headers) (e : WaterlightError) :
  handleError status body headers = Lib e ->
  Errors.status e = Some status
  /\ requestId e = headers_get headers (str "x-request-id")
  /\ (class e = RateLimitError_class <-> status = 429%Z)
  /\ (retryAfter e <> None -> status = 429%Z)
  /\ class e <> WaterlightError_class.
Proof.
  unfold handleError.
  destruct (ToString (error_message body)) as [m | x]; [| discriminate].
  destruct (status =? 401)%Z eqn:E401;
    [apply Z.eqb_eq in E401; subst; intros [= <-]; cbn;
     repeat split; try discriminate; try congruence; now intros [] |].
  destruct (status =? 429)%Z eqn:E429;
    [apply Z.eqb_eq in E429; subst; intros [= <-]; cbn;
     repeat split; try discriminate; congruence |].
  apply Z.eqb_neq in E429.
  destruct (status =? 402)%Z eqn:E402;
    [apply Z.eqb_eq in E402; subst |];
    intros [= <-]; cbn; repeat split;
      try discriminate; try congruence; now intros [].
Qed.

Lemma handleError_keeps_status_and_request_id_witness :
  Errors.status (RateLimitError (str "Request failed") (Some 30%float)
                   (Some (str "req-1")))
  = Some 429%Z
  /\ requestId (RateLimitError (str "Request failed") (Some 30%float)
                  (Some (str "req-1")))
     = headers_get [(str "retry-after", str "30"); (str "x-request-id", str "req-1")]
                   (str "x-request-id")
  /\ (class (RateLimitError (str "Request failed") (Some 30%float)
               (Some (str "req-1")))
      = RateLimitError_class <-> 429%Z = 429%Z)
  /\ (retryAfter (RateLimitError (str "Request failed") (Some 30%float)
                    (Some (str "req-1")))
      <> None -> 429%Z = 429%Z)
  /\ class (RateLimitError (str "Request failed") (Some 30%float)
              (Some (str "req-1")))
     <> WaterlightError_class.
Proof.
  apply (handleError_keeps_status_and_request_id (H := Node.host)
           429 (JObj [])
           [(str "retry-after", str "30"); (str "x-request-id", str "req-1")]).
  reflexivity.
Defined.

(** X11. [handleError] and the retry loop read the [retry-after] header the
    same way: for a 429, the delay the loop would sleep is 1000 times the
    [retryAfter] of the [RateLimitError] when the error carries one, and the
    backoff when it carries none. *)
Theorem retryAfter_agrees_with_retry_delay {H : Host}
    (res : Response) (body : json) (attempt : nat) (e : WaterlightError) :
  handleError 429 body (res_headers res) = Lib e ->
  retry_delay res attempt =
  match retryAfter e with
  | Some seconds => PrimFloat.mul seconds 1000
  | None => PrimFloat.mul 500 (pow2 attempt)
  end.
Proof.
  unfold handleError, retry_delay.
  destruct (ToString (error_message body)) as [m | x]; [| discriminate].
  cbn [Z.eqb Pos.eqb].
  destruct (headers_get (res_headers res) (str "retry-after")) as [[| c v] |];
    intros [= <-]; reflexivity.
Qed.

Lemma retryAfter_agrees_with_retry_delay_witness :
  retry_delay (H := Node.host)
    (errorResponse 429 (str "{}") [(str "retry-after", str "30")]) 0
  = match retryAfter (RateLimitError (str "Request failed") (Some 30%float) None) with
    | Some seconds => PrimFloat.mul seconds 1000
    | None => PrimFloat.mul 500 (pow2 0)
    end.
Proof.
  apply (retryAfter_agrees_with_retry_delay (H := Node.host)
           (errorResponse 429 (str "{}") [(str "retry-after", str "30")])
           (JObj []) 0).
  reflexivity.
Defined.

(** The delay of the backoff at attempt 3. *)
Lemma backoff_is_exact_witness :
  integer_value (PrimFloat.mul 500 (pow2 3)) = Some (500 * 2 ^ Z.of_nat 3)%Z.
Proof. apply (backoff_is_exact 3). lia. Defined.

(* ===================================================================== *)
(** ** Further properties of the event decoder *)
(* ===================================================================== *)

Section Whitespace.

Implicit Types s t ws : jsstring.

Lemma trimStart_spaces ws s :
  forallb is_space ws = true -> trimStart (ws ++ s) = trimStart s.
Proof.
  induction ws as [| c ws IH]; [reflexivity |].
  cbn [forallb app trimStart]. intros Hws.
  apply andb_true_iff in Hws. destruct Hws as [Hc Hws].
  rewrite Hc. exact (IH Hws).
Qed.

Lemma trimStart_only_spaces ws : forallb is_space ws = true -> trimStart ws = [].
Proof.
  intros Hws. rewrite <- (app_nil_r ws). now rewrite trimStart_spaces.
Qed.

Lemma trimStart_nil s : trimStart s = [] -> forallb is_space s = true.
Proof.
  induction s as [| c s IH]; [reflexivity |].
  cbn [trimStart forallb]. destruct (is_space c); [exact IH | discriminate].
Qed.

Lemma trimStart_app s t : trimStart s <> [] -> trimStart (s ++ t) = trimStart s ++ t.
Proof.
  induction s as [| c s IH]; [intros E; now elim E |].
  cbn [trimStart app]. destruct (is_space c); [exact IH | reflexivity].
Qed.

Lemma only_spaces_rev ws : forallb is_space ws = true -> forallb is_space (rev ws) = true.
Proof.
  rewrite !forallb_forall. intros Hws c Hc. apply Hws. now apply in_rev.
Qed.

Lemma trimEnd_spaces s ws :
  forallb is_space ws = true -> trimEnd (s ++ ws) = trimEnd s.
Proof.
  intros Hws. unfold trimEnd.
  now rewrite rev_app_distr, trimStart_spaces by now apply only_spaces_rev.
Qed.

(** [trim] does not see the white space around a string. *)
Lemma trim_spaces ws s ws' :
  forallb is_space ws = true -> forallb is_space ws' = true ->
  trim (ws ++ s ++ ws') = trim s.
Proof.
  intros Hws Hws'. unfold trim. rewrite trimStart_spaces by assumption.
  destruct (trimStart s) as [| c r] eqn:E.
  - apply trimStart_nil in E.
    rewrite trimStart_spaces by assumption.
    now rewrite trimStart_only_spaces.
  - rewrite trimStart_app by (rewrite E; discriminate).
    rewrite E. now apply trimEnd_spaces.
Qed.

End Whitespace.

(** X12. White space between [data:] and the payload, and after the payload,
    does not count: the stripped payload of such a line is that of the
    payload alone. *)
Theorem payload_ignores_surrounding_white_space (ws p ws' : jsstring) :
  forallb is_space ws = true ->
  forallb is_space ws' = true ->
  startsWith (data_prefix ++ ws ++ p ++ ws') data_prefix = true
  /\ payload (data_prefix ++ ws ++ p ++ ws') = trim p.
Proof.
  intros Hws Hws'. split.
  - apply startsWith_iff. now exists (ws ++ p ++ ws').
  - unfold payload. change 5%Z with (Z.of_nat 5).
    rewrite slice_from_suffix by (rewrite length_app; cbn; lia).
    change (skipn 5 (data_prefix ++ ws ++ p ++ ws')) with (ws ++ p ++ ws').
    now apply trim_spaces.
Qed.

Lemma payload_ignores_surrounding_white_space_witness :
  startsWith (data_prefix ++ [] ++ a1 ++ str "  ") data_prefix = true
  /\ payload (data_prefix ++ [] ++ a1 ++ str "  ") = trim a1.
Proof.
  apply (payload_ignores_surrounding_white_space [] a1 (str "  "));
    reflexivity.
Defined.

Section StreamRuns.

Context {H : Host}.

(** X13. The lines of a frame that do not start with [data:] have no effect:
    the loop over the lines does what it does on the data lines alone. *)
Theorem lines_without_data_prefix_are_ignored (lines : list jsstring) :
  for_lines lines
  = for_lines (filter (fun l => startsWith l data_prefix) lines).
Proof.
  induction lines as [| l lines IH]; [reflexivity |].
  cbn [for_lines filter].
  destruct (startsWith l data_prefix) eqn:E; cbn [negb]; [| exact IH].
  cbn [for_lines]. rewrite E. cbn [negb]. now rewrite IH.
Qed.

(** What the inner loop leaves is the end of its buffer. *)
Lemma drain_suffix : forall buffer vs kept,
  drain buffer = (vs, Some kept) -> exists n, kept = skipn n buffer.
Proof.
  intros buffer. pattern buffer. apply buffer_induction.
  clear buffer. intros buffer IH vs kept. rewrite drain_unfold. cbv zeta.
  destruct (Z.eq_dec (indexOf buffer delimiter) (-1)) as [E | E].
  - rewrite E. cbn. intros [= <- <-]. now exists 0%nat.
  - rewrite (proj2 (Z.eqb_neq _ _) E).
    destruct (boundary_found buffer E) as (k & _ & Hk & _ & ->).
    destruct (for_lines _) as [vs1 [|]]; [discriminate |].
    destruct (drain (skipn (k + 2) buffer)) as [vs2 left2] eqn:Hrest.
    intros [= <- ->].
    assert (Hshort : (List.length (skipn (k + 2) buffer)
                      < List.length buffer)%nat)
      by (rewrite length_skipn; lia).
    destruct (IH _ Hshort _ _ Hrest) as [n ->].
    exists (n + (k + 2))%nat. now rewrite skipn_skipn.
Qed.



(** What the loop throws that is not an error of the library is what one of
    the reads threw. *)
Lemma read_loop_other x : forall body buffer,
  snd (read_loop buffer body) = Threw (Other x) -> In (ReadFail x) body.
Proof.
  induction body as [| read body IH]; intros buffer; [discriminate |].
  cbn [read_loop].
  destruct (read_step buffer read) as [vs buffer' | vs c] eqn:Hstep.
  - intros Hsnd. right. apply (IH buffer').
    now destruct (read_loop buffer' body) as [[vs' n'] c'].
  - cbn [snd]. intros ->. left.
    destruct read as [text | e]; [| now injection Hstep as _ <-].
    rewrite read_step_value in Hstep.
    destruct (MAX_SSE_BUFFER <? size (buffer ++ text))%Z; [discriminate |].
    destruct (drain (buffer ++ text)) as [vs1 [kept |]]; discriminate.
Qed.




(** X17. The iteration throws something that is not an error of the library
    in two cases only: the response is 2xx and has no body, and what is
    thrown is the [TypeError] of [res.body!.getReader()]; or a read of the
    body failed, and what is thrown is what the read threw. *)
Theorem stream_throws_foreign_errors_in_two_cases
    (s : Stream) (net : network) (x : Exception) :
  completed (asyncIterator s net) = Threw (Other x) ->
  exists res,
    net 0%nat = Resolve res
    /\ ok res = true
    /\ ((res_body res = None /\ x = TypeError null_body_message)
        \/ exists body, res_body res = Some body /\ In (ReadFail x) body).
Proof.
  unfold asyncIterator.
  destruct (net 0%nat) as [res | e]; [| discriminate].
  destruct (ok res) eqn:Hok; cbn [negb]; [| discriminate].
  intros Hthrown. exists res. split; [reflexivity |]. split; [exact Hok |].
  destruct (res_body res) as [body |].
  - right. exists body. split; [reflexivity |].
    apply (read_loop_other x body []).
    now destruct (read_loop [] body) as [[vs n] c].
  - left. split; [reflexivity |]. now injection Hthrown as <-.
Qed.

(** X18. When the [fetch] of a stream rejects, the iteration yields nothing
    and throws an [APIError]: with status 408 and message "Stream request
    timed out" when the rejection is named [AbortError], with status 0 and
    message "Network error: " followed by the description of the rejection
    otherwise.  Unlike [_request], it wraps a rejection that is an error of
    the library like any other. *)
Theorem stream_fetch_rejection_is_wrapped
    (s : Stream) (net : network) (e : thrown) :
  net 0%nat = Reject e ->
  exists err : WaterlightError,
    asyncIterator s net =
    {| yielded := []; fetches := 1; reads := 0; completed := Threw (Lib err) |}
    /\ class err = APIError_class
    /\ requestId err = None
    /\ (thrown_name e = Some (str "AbortError") ->
        status err = Some 408%Z
        /\ message err = str "Stream request timed out")
    /\ (thrown_name e <> Some (str "AbortError") ->
        status err = Some 0%Z
        /\ message err = str "Network error: " ++ thrown_description e)
    /\ (forall w, e = Lib w ->
        status err = Some 0%Z
        /\ message err = str "Network error: " ++ message w).
Proof.
  intros Hnet. unfold asyncIterator. rewrite Hnet.
  eexists. split; [reflexivity |].
  destruct (match thrown_name e with
            | Some n => str_eqb n (str "AbortError")
            | None => false
            end) eqn:Hname.
  - split; [reflexivity |]. split; [reflexivity |]. split; [| split].
    + intros _. split; reflexivity.
    + intros Hno. destruct (thrown_name e) as [n |]; [| discriminate].
      apply str_eqb_eq in Hname. congruence.
    + intros w ->. cbn [thrown_name] in Hname.
      now destruct w as [[] m st rid ra].
  - split; [reflexivity |]. split; [reflexivity |]. split; [| split].
    + intros Ename. rewrite Ename in Hname.
      now rewrite (proj2 (str_eqb_eq _ _) eq_refl) in Hname.
    + intros _. split; reflexivity.
    + intros w ->. split; reflexivity.
Qed.

(** X19. Between two reads the buffer is an end of the text received so far,
    and it holds no blank line: every frame that is complete has been dealt
    with. *)
Theorem buffer_between_reads_holds_no_frame
    (buffer text : jsstring) (vs : list json) (buffer' : jsstring) :
  read_step buffer (ReadValue text) = Next vs buffer' ->
  indexOf buffer' delimiter = (-1)%Z
  /\ exists n, buffer' = skipn n (buffer ++ text).
Proof.
  rewrite read_step_value.
  destruct (MAX_SSE_BUFFER <? size (buffer ++ text))%Z; [discriminate |].
  destruct (drain (buffer ++ text)) as [vs1 [kept |]] eqn:Hdrain;
    [| discriminate].
  intros [= <- <-]. split.
  - exact (proj1 (drain_leftover _ _ _ Hdrain)).
  - exact (drain_suffix _ _ _ Hdrain).
Qed.

End StreamRuns.

(* ===================================================================== *)
(** ** [Completions.create] *)
(* ===================================================================== *)

Section Objects.

Implicit Types k : jsstring.

Lemma str_eqb_refl k : str_eqb k k = true.
Proof. now apply str_eqb_eq. Qed.

(** Reading a property after setting one. *)
Lemma lookup_set_prop k k' v props :
  lookup k (set_prop k' v props)
  = if str_eqb k k' then Some v else lookup k props.
Proof.
  induction props as [| [k0 v0] props IH]; cbn [set_prop lookup].
  - reflexivity.
  - destruct (str_eqb k' k0) eqn:E'; cbn [lookup].
    + apply str_eqb_eq in E'. subst k0.
      now destruct (str_eqb k k').
    + destruct (str_eqb k k0) eqn:E.
      * apply str_eqb_eq in E. subst k0.
        destruct (str_eqb k k') eqn:E''; [| reflexivity].
        apply str_eqb_eq in E''. subst k'.
        rewrite str_eqb_refl in E'. discriminate E'.
      * exact IH.
Qed.

(** Setting a property keeps the other keys where they are; a new key goes
    to the end. *)
Lemma keys_set_prop k v props :
  map fst (set_prop k v props)
  = match lookup k props with
    | Some _ => map fst props
    | None => map fst props ++ [k]
    end.
Proof.
  induction props as [| [k0 v0] props IH]; cbn [set_prop lookup map fst app].
  - reflexivity.
  - destruct (str_eqb k k0); cbn [map fst]; [reflexivity |].
    rewrite IH. now destruct (lookup k props).
Qed.

End Objects.

(** X20. Whatever [params.stream] is, the body that [Completions.create]
    sends has a [stream] property that is a boolean, [true] when a [Stream]
    is returned and [false] when the request is posted, and a [Stream] is
    returned exactly when [params.stream] is truthy.  The other properties
    of [params] are in the body with their values, and the keys keep their
    order. *)
Theorem create_sends_a_boolean_stream_flag
    (client : Waterlight) (params : list (jsstring * json)) :
  exists props,
    request_body (Completions_create client params) = JObj props
    /\ lookup (str "stream") props
       = Some (JBool (truthy_value (lookup (str "stream") params)))
    /\ ((exists s, Completions_create client params = Streamed s)
        <-> truthy_value (lookup (str "stream") params) = true)
    /\ (forall k, k <> str "stream" -> lookup k props = lookup k params)
    /\ map fst props
       = match lookup (str "stream") params with
         | Some _ => map fst params
         | None => map fst params ++ [str "stream"]
         end.
Proof.
  unfold Completions_create, Completions_create_stream, new_Stream.
  destruct (truthy_value (lookup (str "stream") params));
    cbn [request_body stream_body]; eexists;
    (split; [reflexivity |]);
    (split; [rewrite lookup_set_prop; now rewrite str_eqb_refl |]);
    (split; [| split; [| apply keys_set_prop]]).
  - split; [reflexivity | intros _; eexists; reflexivity].
  - intros k Hk. rewrite lookup_set_prop.
    destruct (str_eqb k (str "stream")) eqn:E; [| reflexivity].
    apply str_eqb_eq in E. contradiction.
  - split; [intros [s Hs]; discriminate Hs | discriminate].
  - intros k Hk. rewrite lookup_set_prop.
    destruct (str_eqb k (str "stream")) eqn:E; [| reflexivity].
    apply str_eqb_eq in E. contradiction.
Qed.

(* ===================================================================== *)
(** ** The further properties on concrete runs *)
(* ===================================================================== *)




(** A 204 with no body makes the iteration throw a [TypeError]. *)
Lemma stream_throws_foreign_errors_in_two_cases_witness :
  exists res,
    no_content 0%nat = Resolve res
    /\ ok res = true
    /\ ((res_body res = None
         /\ TypeError null_body_message = TypeError null_body_message)
        \/ exists body,
             res_body res = Some body
             /\ In (ReadFail (TypeError null_body_message)) body).
Proof.
  apply (stream_throws_foreign_errors_in_two_cases (H := Node.host)
           a_stream no_content (TypeError null_body_message)).
  reflexivity.
Defined.

(** The request of a stream that the timer aborts. *)
Lemma stream_fetch_rejection_is_wrapped_witness :
  exists err : WaterlightError,
    asyncIterator (H := Node.host) a_stream timed_out =
    {| yielded := []; fetches := 1; reads := 0; completed := Threw (Lib err) |}
    /\ class err = APIError_class
    /\ requestId err = None
    /\ (thrown_name (Other abort_error) = Some (str "AbortError") ->
        status err = Some 408%Z
        /\ message err = str "Stream request timed out")
    /\ (thrown_name (Other abort_error) <> Some (str "AbortError") ->
        status err = Some 0%Z
        /\ message err
           = str "Network error: " ++ thrown_description (Other abort_error))
    /\ (forall w, Other abort_error = Lib w ->
        status err = Some 0%Z
        /\ message err = str "Network error: " ++ message w).
Proof.
  apply (stream_fetch_rejection_is_wrapped (H := Node.host)
           a_stream timed_out (Other abort_error)).
  reflexivity.
Defined.

(** A chunk with one frame and the start of the next. *)
Lemma buffer_between_reads_holds_no_frame_witness :
  indexOf (data b2) delimiter = (-1)%Z
  /\ exists n, data b2 = skipn n ([] ++ framed [data a1] ++ data b2).
Proof.
  apply (buffer_between_reads_holds_no_frame (H := Node.host)
           [] (framed [data a1] ++ data b2)
           [JObj [(str "a", JNum 1%float)]] (data b2)).
  reflexivity.
Defined.
